(** * go-taskflow: the workflow engine and the task executor

    A shallow embedding of [pkg/types], [pkg/executor] and [pkg/workflow]
    of BaseMax/go-taskflow, and the properties of the engine that its
    specification states.

    Conventions of the embedding.
    - A Go [string] is a Rocq [string] (a sequence of bytes).
    - A Go [error] is an [option string]: [None] is [nil], [Some m] is an
      error whose [Error()] text is [m].
    - [int] and [time.Duration] are [Z]; no computation of the engine can
      overflow them (they are only compared and counted up to a bound).
    - A Go [map] is a [gmap]; a [range] over a map visits its entries in an
      order chosen by the environment (see [rangeMap]).
    - Everything outside the process (clock, shell, network, file system,
      standard output, map iteration order) is an [Oracle] answering from
      the history of the calls made so far; the functions of the program
      thread a [World] holding that history. *)

From Stdlib Require Import ZArith String Ascii List Bool Lia.
From Stdlib Require Import Numbers.DecimalString.
From stdpp Require Import base tactics option list gmap strings fin_maps sets.

Import ListNotations.
Local Open Scope string_scope.
Local Open Scope list_scope.

(** ** The [strings] package, on byte strings *)

Module strings.

(** [strings.HasPrefix]. *)
Fixpoint HasPrefix (s prefix : string) : bool :=
  match prefix, s with
  | EmptyString, _ => true
  | String _ _, EmptyString => false
  | String p ps, String c cs => if Ascii.eqb c p then HasPrefix cs ps else false
  end.

(** [strings.Contains]: [substr] occurs somewhere in [s]. *)
Fixpoint Contains (s substr : string) : bool :=
  HasPrefix s substr ||
  match s with
  | EmptyString => false
  | String _ cs => Contains cs substr
  end.

(** The scan shared by [ReplaceAll] and [Split]: [skip] counts the bytes
    of a match that are still to be passed over, so that matches are the
    leftmost non-overlapping ones, as in Go. *)
Fixpoint replace_from (skip : nat) (s old new : string) : string :=
  match s with
  | EmptyString => EmptyString
  | String c rest =>
      match skip with
      | S k => replace_from k rest old new
      | O =>
          if HasPrefix s old
          then new +:+ replace_from (String.length old - 1) rest old new
          else String c (replace_from 0 rest old new)
      end
  end.

(** With an empty [old], Go inserts [new] before every character and at
    the end. *)
Fixpoint intersperse_all (s new : string) : string :=
  match s with
  | EmptyString => new
  | String c rest => new +:+ String c (intersperse_all rest new)
  end.

(** [strings.ReplaceAll]. *)
Definition ReplaceAll (s old new : string) : string :=
  match old with
  | EmptyString => intersperse_all s new
  | String _ _ => replace_from 0 s old new
  end.

Fixpoint split_from (skip : nat) (s sep : string) : list string :=
  match s with
  | EmptyString => [EmptyString]
  | String c rest =>
      match skip with
      | S k => split_from k rest sep
      | O =>
          if HasPrefix s sep
          then EmptyString :: split_from (String.length sep - 1) rest sep
          else match split_from 0 rest sep with
               | piece :: pieces => String c piece :: pieces
               | [] => [String c EmptyString]
               end
      end
  end.

Fixpoint explode (s : string) : list string :=
  match s with
  | EmptyString => []
  | String c rest => String c EmptyString :: explode rest
  end.

(** [strings.Split]: all the pieces of [s] between the occurrences of
    [sep]; with an empty [sep], the characters of [s]. *)
Definition Split (s sep : string) : list string :=
  match sep with
  | EmptyString => explode s
  | String _ _ => split_from 0 s sep
  end.

Fixpoint mem (c : ascii) (cutset : string) : bool :=
  match cutset with
  | EmptyString => false
  | String d ds => Ascii.eqb c d || mem c ds
  end.

Fixpoint TrimLeftFunc (f : ascii -> bool) (s : string) : string :=
  match s with
  | EmptyString => EmptyString
  | String c rest => if f c then TrimLeftFunc f rest else s
  end.

Fixpoint TrimRightFunc (f : ascii -> bool) (s : string) : string :=
  match s with
  | EmptyString => EmptyString
  | String c rest =>
      match TrimRightFunc f rest with
      | EmptyString => if f c then EmptyString else String c EmptyString
      | String _ _ as rest' => String c rest'
      end
  end.

(** [strings.Trim], for a cutset of ASCII characters: the leading and the
    trailing bytes that belong to [cutset] are removed. *)
Definition Trim (s cutset : string) : string :=
  TrimLeftFunc (fun c => mem c cutset) (TrimRightFunc (fun c => mem c cutset) s).

(** The white space of Go's [asciiSpace] table: tab, line feed, vertical
    tab, form feed, carriage return and space. *)
Definition isSpace (c : ascii) : bool :=
  let n := nat_of_ascii c in
  ((9 <=? n)%nat && (n <=? 13)%nat) || (n =? 32)%nat.

(** [strings.TrimSpace], on ASCII white space. Go also removes the
    multi-byte Unicode spaces (U+0085, U+00A0, U+2000 and the like); a
    text holding one of them at either end is outside this model. *)
Definition TrimSpace (s : string) : string :=
  TrimRightFunc isSpace (TrimLeftFunc isSpace s).

(** [strings.Join]. *)
Fixpoint Join (elems : list string) (sep : string) : string :=
  match elems with
  | [] => EmptyString
  | [e] => e
  | e :: rest => e +:+ sep +:+ Join rest sep
  end.

End strings.

(** ** The environment *)

(** [context.Context], as far as the program builds it: the background
    context of the caller, and [context.WithTimeout]. *)
Inductive Context : Type :=
| Background
| WithTimeout (parent : Context) (d : Z).

(** The calls the program makes to the outside, with their arguments. *)
Inductive Event : Type :=
| EvNow                                   (* time.Now() *)
| EvSleep (d : Z)                         (* time.Sleep(d) *)
| EvPrint (text : string)                 (* fmt.Printf *)
| EvRange (keys : list string)            (* range over a map with these keys *)
| EvGOOS                                  (* runtime.GOOS *)
| EvCmdRun (ctx : Context) (shell flag command : string)
                                          (* exec.CommandContext(...).Run() *)
| EvNewRequest (ctx : Context) (method url : string) (body : option string)
                                          (* http.NewRequestWithContext *)
| EvHeaderSet (key value : string)        (* req.Header.Set *)
| EvClientDo                              (* client.Do(req) *)
| EvReadAll                               (* io.ReadAll(resp.Body) *)
| EvReadFile (path : string)              (* os.ReadFile *)
| EvWriteFile (path content : string)     (* os.WriteFile(_, _, 0644) *)
| EvRemove (path : string).               (* os.Remove *)

(** What a finished command leaves: both captured streams and the error
    of [cmd.Run]. *)
Record CmdOutcome : Type := mkCmdOutcome {
  cmd_stdout : string;
  cmd_stderr : string;
  cmd_err : option string
}.

(** The environment answers every call from the history of the calls made
    up to and including that call. *)
Record Oracle : Type := mkOracle {
  o_now : list Event -> Z;
  o_order : list Event -> nat;
  o_goos : list Event -> string;
  o_cmd : list Event -> CmdOutcome;
  o_new_request : list Event -> option string;
  o_client_do : list Event -> string + Z;          (* error, or status code *)
  o_read_all : list Event -> string + string;      (* error, or body *)
  o_read_file : list Event -> string + string;     (* error, or content *)
  o_write_file : list Event -> option string;
  o_remove : list Event -> option string
}.

Record World : Type := mkWorld {
  oracle : Oracle;
  history : list Event
}.

(** Computations of the program: state passing over the world. *)
Definition M (A : Type) : Type := World -> A * World.

Definition ret {A} (a : A) : M A := fun w => (a, w).

Definition bind {A B} (c : M A) (k : A -> M B) : M B :=
  fun w => let (a, w') := c w in k a w'.

Notation "x <- c ;; k" := (bind c (fun x => k))
  (at level 100, c at next level, right associativity).
Notation "c ;;; k" := (bind c (fun _ => k))
  (at level 100, right associativity).

(** A call: the event enters the history, then the oracle answers. *)
Definition call {R} (ev : Event) (answer : Oracle -> list Event -> R) : M R :=
  fun w =>
    let h := history w ++ [ev] in
    (answer (oracle w) h, mkWorld (oracle w) h).

Definition time_Now : M Z := call EvNow o_now.
Definition time_Sleep (d : Z) : M unit := call (EvSleep d) (fun _ _ => tt).
Definition fmt_Printf (text : string) : M unit := call (EvPrint text) (fun _ _ => tt).
Definition runtime_GOOS : M string := call EvGOOS o_goos.

(** The [n]-th arrangement of a list: element [n mod length] first, then
    the [n / length]-th arrangement of the others. *)
Fixpoint arrange {A} (fuel n : nat) (l : list A) : list A :=
  match fuel with
  | O => []
  | S fuel' =>
      let i := (n mod length l)%nat in
      match l !! i with
      | Some x => x :: arrange fuel' (n / length l)%nat (delete i l)
      | None => []
      end
  end.

(** A [range] over a Go map: every entry once, in an order the language
    leaves open; here the environment picks it at every loop. The orders
    it can pick are exactly the permutations of the entries
    ([arrange_Permutation], [arrange_complete]). *)
Definition rangeMap {V} (m : gmap string V) : M (list (string * V)) :=
  let entries := map_to_list m in
  n <- call (EvRange (entries.*1)) o_order ;;
  ret (arrange (length entries) n entries).

(** [for ... { body }] over a slice, threading an accumulator. *)
Fixpoint forEach {A S} (l : list A) (body : S -> A -> M S) (s : S) : M S :=
  match l with
  | [] => ret s
  | x :: rest => s' <- body s x ;; forEach rest body s'
  end.

(** [%d] of an integer. *)
Definition Z_to_string (z : Z) : string := NilZero.string_of_int (Z.to_int z).

Definition newline : string := String (ascii_of_nat 10) EmptyString.

(** ** pkg/types *)

Module types.

(** [RetryConfig]. *)
Record RetryConfig : Type := mkRetryConfig {
  MaxAttempts : Z;
  Delay : Z
}.

(** [Task]: one task of a workflow. *)
Record Task : Type := mkTask {
  Name : string;
  Type_ : string;                      (* shell, http, file *)
  Command : string;
  Script : string;
  URL : string;
  Method : string;
  Headers : gmap string string;
  Body : string;
  FilePath : string;
  FileContent : string;
  FileAction : string;                 (* read, write, delete, copy *)
  SourcePath : string;
  DestPath : string;
  DependsOn : list string;
  Condition : string;
  Retry : RetryConfig;
  Timeout : Z;
  ContinueOnError : bool;
  Parallel : bool
}.

(** [Workflow]. *)
Record Workflow : Type := mkWorkflow {
  WfName : string;
  Description : string;
  Variables : gmap string string;
  Tasks : list Task
}.

(** [TaskResult]. *)
Record TaskResult : Type := mkTaskResult {
  TaskName : string;
  Success : bool;
  Error : option string;
  Output : string;
  StartTime : Z;
  EndTime : Z
}.

End types.
Import types.

(** ** pkg/executor *)

Module executor.

Definition windowsShell : string := "cmd.exe".
Definition windowsFlag : string := "/c".
Definition unixShell : string := "sh".
Definition unixFlag : string := "-c".

(** [Executor]. *)
Record Executor : Type := mkExecutor {
  variables : gmap string string
}.

Definition NewExecutor (variables : gmap string string) : Executor :=
  mkExecutor variables.

(** The placeholder of a key: ["${" + key + "}"]. *)
Definition placeholder (key : string) : string := "${" +:+ key +:+ "}".

Definition substitute (result : string) (entry : string * string) : string :=
  strings.ReplaceAll result (placeholder entry.1) entry.2.

(** [Executor.replaceVariables]: one [ReplaceAll] per workflow variable,
    each on the result of the one before. *)
Definition replaceVariables (e : Executor) (input : string) : M string :=
  entries <- rangeMap (variables e) ;;
  ret (fold_left substitute entries input).

(** [Executor.executeShell]. *)
Definition executeShell (e : Executor) (ctx : Context) (task : Task)
  : M (string * option string) :=
  let command := if String.eqb (Script task) EmptyString
                 then Command task else Script task in
  command <- replaceVariables e command ;;
  goos <- runtime_GOOS ;;
  out <- (if String.eqb goos "windows"
          then call (EvCmdRun ctx windowsShell windowsFlag command) o_cmd
          else call (EvCmdRun ctx unixShell unixFlag command) o_cmd) ;;
  match cmd_err out with
  | Some err =>
      ret (cmd_stderr out,
           Some ("command failed: " +:+ err +:+ newline +:+ "stderr: "
                 +:+ cmd_stderr out))
  | None => ret (cmd_stdout out, None)
  end.

(** [Executor.executeHTTP]. *)
Definition executeHTTP (e : Executor) (ctx : Context) (task : Task)
  : M (string * option string) :=
  url <- replaceVariables e (URL task) ;;
  let method := if String.eqb (Method task) EmptyString
                then "GET" else Method task in
  body <- (if String.eqb (Body task) EmptyString
           then ret None
           else b <- replaceVariables e (Body task) ;; ret (Some b)) ;;
  created <- call (EvNewRequest ctx method url body) o_new_request ;;
  match created with
  | Some err => ret (EmptyString, Some ("failed to create request: " +:+ err))
  | None =>
      headers <- rangeMap (Headers task) ;;
      forEach headers
        (fun _ kv => value <- replaceVariables e kv.2 ;;
                     call (EvHeaderSet kv.1 value) (fun _ _ => tt)) tt ;;;
      resp <- call EvClientDo o_client_do ;;
      match resp with
      | inl err => ret (EmptyString, Some ("request failed: " +:+ err))
      | inr status =>
          read <- call EvReadAll o_read_all ;;
          match read with
          | inl err =>
              ret (EmptyString, Some ("failed to read response: " +:+ err))
          | inr respBody =>
              if (400 <=? status)%Z
              then ret (respBody,
                        Some ("HTTP error: status code " +:+ Z_to_string status))
              else ret (respBody, None)
          end
      end
  end.

(** [Executor.fileRead]. *)
Definition fileRead (e : Executor) (task : Task) : M (string * option string) :=
  filePath <- replaceVariables e (FilePath task) ;;
  r <- call (EvReadFile filePath) o_read_file ;;
  match r with
  | inl err => ret (EmptyString, Some ("failed to read file: " +:+ err))
  | inr content => ret (content, None)
  end.

(** [Executor.fileWrite]. *)
Definition fileWrite (e : Executor) (task : Task) : M (string * option string) :=
  filePath <- replaceVariables e (FilePath task) ;;
  content <- replaceVariables e (FileContent task) ;;
  r <- call (EvWriteFile filePath content) o_write_file ;;
  match r with
  | Some err => ret (EmptyString, Some ("failed to write file: " +:+ err))
  | None => ret ("Successfully wrote to " +:+ filePath, None)
  end.

(** [Executor.fileDelete]. *)
Definition fileDelete (e : Executor) (task : Task) : M (string * option string) :=
  filePath <- replaceVariables e (FilePath task) ;;
  r <- call (EvRemove filePath) o_remove ;;
  match r with
  | Some err => ret (EmptyString, Some ("failed to delete file: " +:+ err))
  | None => ret ("Successfully deleted " +:+ filePath, None)
  end.

(** [Executor.fileCopy]. *)
Definition fileCopy (e : Executor) (task : Task) : M (string * option string) :=
  sourcePath <- replaceVariables e (SourcePath task) ;;
  destPath <- replaceVariables e (DestPath task) ;;
  r <- call (EvReadFile sourcePath) o_read_file ;;
  match r with
  | inl err => ret (EmptyString, Some ("failed to read source file: " +:+ err))
  | inr sourceData =>
      w <- call (EvWriteFile destPath sourceData) o_write_file ;;
      match w with
      | Some err =>
          ret (EmptyString, Some ("failed to write destination file: " +:+ err))
      | None =>
          ret ("Successfully copied " +:+ sourcePath +:+ " to " +:+ destPath, None)
      end
  end.

(** [Executor.executeFile]. *)
Definition executeFile (e : Executor) (ctx : Context) (task : Task)
  : M (string * option string) :=
  if String.eqb (FileAction task) "read" then fileRead e task
  else if String.eqb (FileAction task) "write" then fileWrite e task
  else if String.eqb (FileAction task) "delete" then fileDelete e task
  else if String.eqb (FileAction task) "copy" then fileCopy e task
  else ret (EmptyString, Some ("unknown file action: " +:+ FileAction task)).

(** [Executor.Execute]: the dispatch on the task's type. The result and
    the error are returned together, as in the source. *)
Definition Execute (e : Executor) (ctx : Context) (task : Task)
  : M (TaskResult * option string) :=
  start <- time_Now ;;
  r <- (if String.eqb (Type_ task) "shell" then executeShell e ctx task
        else if String.eqb (Type_ task) "http" then executeHTTP e ctx task
        else if String.eqb (Type_ task) "file" then executeFile e ctx task
        else ret (EmptyString, Some ("unknown task type: " +:+ Type_ task))) ;;
  let (output, err) := (r : string * option string) in
  finish <- time_Now ;;
  ret ({| TaskName := Name task;
          Success := match err with None => true | Some _ => false end;
          Error := err;
          Output := output;
          StartTime := start;
          EndTime := finish |}, err).

End executor.

(** ** pkg/workflow *)

Module workflow.

(** [Engine]. Its mutex guards [results]; in this sequential model every
    access is atomic already. *)
Record Engine : Type := mkEngine {
  workflow_ : Workflow;
  executor_ : executor.Executor;
  results : gmap string TaskResult
}.

(** [NewEngine]. *)
Definition NewEngine (wf : Workflow) : Engine :=
  {| workflow_ := wf;
     executor_ := executor.NewExecutor (Variables wf);
     results := ∅ |}.

(** [Engine.storeResult]. *)
Definition storeResult (e : Engine) (result : TaskResult) : Engine :=
  {| workflow_ := workflow_ e;
     executor_ := executor_ e;
     results := <[TaskName result := result]> (results e) |}.

Definition substituteOutput (result : string) (entry : string * TaskResult) : string :=
  if Success entry.2
  then strings.ReplaceAll result ("${" +:+ entry.1 +:+ ".output}") (Output entry.2)
  else result.

(** [Engine.replaceVariables]: the workflow variables first, then the
    outputs of the tasks recorded as successful. *)
Definition replaceVariables (e : Engine) (input : string) : M string :=
  vars <- rangeMap (Variables (workflow_ e)) ;;
  let result := fold_left executor.substitute vars input in
  outs <- rangeMap (results e) ;;
  ret (fold_left substituteOutput outs result).

(** The cutset of the condition's right-hand side: the double and the
    single quote. *)
Definition quotes : string := String (ascii_of_nat 34) (String (ascii_of_nat 39) EmptyString).

(** One comparison of [evaluateCondition]: when [op] occurs in the text
    and splits it in exactly two parts, the comparison of the parts;
    otherwise the code falls through. *)
Definition compareOn (op condition : string) : option bool :=
  if strings.Contains condition op then
    match strings.Split condition op with
    | [part0; part1] =>
        let left := strings.TrimSpace part0 in
        let right := strings.TrimSpace (strings.Trim part1 quotes) in
        Some (String.eqb left right)
    | _ => None
    end
  else None.

(** [evaluateCondition] after the variables are replaced. *)
Definition evaluateResolved (condition : string) : bool :=
  match compareOn "==" condition with
  | Some equal => equal
  | None =>
      match compareOn "!=" condition with
      | Some equal => negb equal
      | None =>
          negb (String.eqb condition EmptyString)
          && negb (String.eqb condition "false")
          && negb (String.eqb condition "0")
      end
  end.

(** [Engine.evaluateCondition]. *)
Definition evaluateCondition (e : Engine) (condition : string) : M bool :=
  condition <- replaceVariables e condition ;;
  ret (evaluateResolved condition).

Definition skippedResult (task : Task) (start finish : Z) : TaskResult :=
  {| TaskName := Name task;
     Success := true;
     Error := None;
     Output := "Skipped due to condition";
     StartTime := start;
     EndTime := finish |}.

Definition retryMessage (task : Task) (attempt maxAttempts : Z) : string :=
  "Task " +:+ Name task +:+ " failed (attempt " +:+ Z_to_string (attempt + 1)
  +:+ "/" +:+ Z_to_string maxAttempts +:+ "), retrying..." +:+ newline.

(** The retry loop of [executeTask], entered at [attempt] with
    [attempt < maxAttempts]; [rest] counts the iterations that remain
    after this one, [maxAttempts - 1 - attempt]. *)
Fixpoint attemptLoop (e : Engine) (taskCtx : Context) (task : Task)
    (maxAttempts delay : Z) (rest : nat) (attempt : Z) : M TaskResult :=
  (if (0 <? attempt)%Z && (0 <? delay)%Z then time_Sleep delay else ret tt) ;;;
  r <- executor.Execute (executor_ e) taskCtx task ;;
  match r.2 with
  | None => ret r.1
  | Some _ =>
      (if (attempt <? maxAttempts - 1)%Z
       then fmt_Printf (retryMessage task attempt maxAttempts)
       else ret tt) ;;;
      match rest with
      | O => ret r.1
      | S rest' => attemptLoop e taskCtx task maxAttempts delay rest' (attempt + 1)%Z
      end
  end.

(** [executeTask] past the condition: the timeout, the retry policy and
    the loop. *)
Definition executeWithRetries (e : Engine) (ctx : Context) (task : Task)
  : M TaskResult :=
  let taskCtx := if (0 <? Timeout task)%Z then WithTimeout ctx (Timeout task) else ctx in
  let retry := (0 <? MaxAttempts (Retry task))%Z in
  let maxAttempts := if retry then MaxAttempts (Retry task) else 1%Z in
  let delay := if retry then Delay (Retry task) else 0%Z in
  attemptLoop e taskCtx task maxAttempts delay (Z.to_nat (maxAttempts - 1)) 0%Z.

(** The test of [executeTask]'s first [if]: the condition is not the
    empty string, and then (only then) it is evaluated and does not hold. *)
Definition conditionSkips (e : Engine) (task : Task) : M bool :=
  if String.eqb (Condition task) EmptyString
  then ret false
  else holds <- evaluateCondition e (Condition task) ;; ret (negb holds).

(** [Engine.executeTask]. *)
Definition executeTask (e : Engine) (ctx : Context) (task : Task) : M TaskResult :=
  skip <- conditionSkips e task ;;
  if (skip : bool)
  then start <- time_Now ;;
       finish <- time_Now ;;
       ret (skippedResult task start finish)
  else executeWithRetries e ctx task.

(** [Engine.executeParallel]. The goroutines of a batch share nothing but
    the engine's results, which none of them writes, and each fills its
    own slot of the returned slice; their calls to the outside are taken
    in the order of the batch. *)
Fixpoint executeParallel (e : Engine) (ctx : Context) (tasks : list Task)
  : M (list TaskResult) :=
  match tasks with
  | [] => ret []
  | t :: rest =>
      result <- executeTask e ctx t ;;
      others <- executeParallel e ctx rest ;;
      ret (result :: others)
  end.

(** [executed[name]] on a [map[string]bool]. *)
Definition isExecuted (executed : gmap string bool) (name : string) : bool :=
  default false (executed !! name).

(** [Engine.dependenciesMet]. *)
Fixpoint depsMet (rs : gmap string TaskResult) (executed : gmap string bool)
    (deps : list string) : bool :=
  match deps with
  | [] => true
  | dep :: rest =>
      if negb (isExecuted executed dep) then false
      else match rs !! dep with
           | Some result => if negb (Success result) then false
                            else depsMet rs executed rest
           | None => depsMet rs executed rest
           end
  end.

Definition dependenciesMet (e : Engine) (task : Task) (executed : gmap string bool) : bool :=
  depsMet (results e) executed (DependsOn task).

(** The variables of [Run]'s loop. *)
Record RunState : Type := mkRunState {
  engine : Engine;
  executed : gmap string bool;
  allResults : list TaskResult
}.

(** The three statements that follow every execution in [Run]. *)
Definition record (st : RunState) (result : TaskResult) : RunState :=
  {| engine := storeResult (engine st) result;
     executed := <[TaskName result := true]> (executed st);
     allResults := allResults st ++ [result] |}.

Definition tasksOf (st : RunState) : list Task := Tasks (workflow_ (engine st)).

Definition readyTasks (st : RunState) : list Task :=
  List.filter (fun task => negb (isExecuted (executed st) (Name task))
                           && dependenciesMet (engine st) task (executed st))
              (tasksOf st).

Definition unexecuted (st : RunState) : list string :=
  map Name (List.filter (fun task => negb (isExecuted (executed st) (Name task)))
                        (tasksOf st)).

(** [%v] of a slice of strings, and of an error. *)
Definition showStrings (l : list string) : string := "[" +:+ strings.Join l " " +:+ "]".
Definition showError (err : option string) : string :=
  match err with Some m => m | None => "<nil>" end.

Definition deadlockError (names : list string) : string :=
  "circular dependency or missing task dependencies: " +:+ showStrings names.

Definition failedError (task : Task) (result : TaskResult) : string :=
  "task " +:+ Name task +:+ " failed: " +:+ showError (Error result).

(** How a step of [Run] ends: with a [return], or in a new state. *)
Inductive Step : Type :=
| Return (results : list TaskResult) (err : option string)
| Continue (st : RunState).

(** The loop over [sequentialTasks]. *)
Fixpoint runSequential (ctx : Context) (tasks : list Task) (st : RunState) : M Step :=
  match tasks with
  | [] => ret (Continue st)
  | task :: rest =>
      result <- executeTask (engine st) ctx task ;;
      let st' := record st result in
      if negb (Success result) && negb (ContinueOnError task)
      then ret (Return (allResults st') (Some (failedError task result)))
      else runSequential ctx rest st'
  end.

(** The [if len(parallelTasks) > 0] block of [Run]: the batch runs, then
    its results are recorded in the order of the batch. *)
Definition runParallel (ctx : Context) (tasks : list Task) (st : RunState) : M RunState :=
  match tasks with
  | [] => ret st
  | _ :: _ =>
      rs <- executeParallel (engine st) ctx tasks ;;
      ret (fold_left record rs st)
  end.

Definition parallelTasks (ready : list Task) : list Task := List.filter Parallel ready.
Definition sequentialTasks (ready : list Task) : list Task :=
  List.filter (fun task => negb (Parallel task)) ready.

(** One iteration of the [for] of [Run]. The [break] of the source leads
    to the final [return allResults, nil]. *)
Definition round (ctx : Context) (st : RunState) : M Step :=
  let ready := readyTasks st in
  match ready with
  | [] =>
      if (size (executed st) <? length (tasksOf st))%nat
      then ret (Return (allResults st) (Some (deadlockError (unexecuted st))))
      else ret (Return (allResults st) None)
  | _ :: _ =>
      st <- runParallel ctx (parallelTasks ready) st ;;
      runSequential ctx (sequentialTasks ready) st
  end.

(** The [for len(executed) < len(e.workflow.Tasks)] of [Run]; [None] when
    [fuel] iterations were not enough. *)
Fixpoint runLoop (fuel : nat) (ctx : Context) (st : RunState)
  : M (option (list TaskResult * option string)) :=
  match fuel with
  | O => ret None
  | S fuel' =>
      if (size (executed st) <? length (tasksOf st))%nat
      then step <- round ctx st ;;
           match step with
           | Return rs err => ret (Some (rs, err))
           | Continue st' => runLoop fuel' ctx st'
           end
      else ret (Some (allResults st, None))
  end.

Definition initialState (e : Engine) : RunState :=
  {| engine := e; executed := ∅; allResults := [] |}.

(** [Engine.Run]. The [taskMap] it builds first is never read. Every
    iteration that goes on executes a task that was not executed, so
    one iteration more than there are tasks is enough ([Run_returns]). *)
Definition Run (e : Engine) (ctx : Context)
  : M (option (list TaskResult * option string)) :=
  runLoop (S (length (Tasks (workflow_ e)))) ctx (initialState e).

End workflow.

(** ** Vocabulary of the properties *)

Import workflow.

(** What a computation guarantees from every world: [Q] of its value, the
    oracle kept, and the history extended by events that all satisfy [P]. *)
Definition guarantees {A} (c : M A) (Q : A -> Prop) (P : Event -> Prop) : Prop :=
  forall w,
    Q (c w).1 /\ oracle (c w).2 = oracle w /\
    exists evs, history (c w).2 = history w ++ evs /\ Forall P evs.

(** The events that reach a backend of the executor: a process, the
    network or the file system. *)
Definition isBackendCall (ev : Event) : bool :=
  match ev with
  | EvCmdRun _ _ _ _ | EvNewRequest _ _ _ _ | EvHeaderSet _ _ | EvClientDo
  | EvReadAll | EvReadFile _ | EvWriteFile _ _ | EvRemove _ => true
  | EvNow | EvSleep _ | EvPrint _ | EvRange _ | EvGOOS => false
  end.

(** The states [Run]'s loop passes through at the head of its [for],
    started from the engine [e] in the world [w0]. *)
Inductive Reaches (e : Engine) (ctx : Context) (w0 : World) : RunState -> World -> Prop :=
| reaches_start : Reaches e ctx w0 (initialState e) w0
| reaches_round st w st' w' :
    Reaches e ctx w0 st w ->
    (size (executed st) < length (tasksOf st))%nat ->
    round ctx st w = (Continue st', w') ->
    Reaches e ctx w0 st' w'.

(** The number of tasks the loop has still to execute. *)
Definition remaining (st : RunState) : nat := length (unexecuted st).

(** A task whose every dependency has a successful result in [rs]. *)
Definition depsSucceeded (rs : list TaskResult) (task : Task) : Prop :=
  forall dep, In dep (DependsOn task) ->
    exists r, In r rs /\ TaskName r = dep /\ Success r = true.

(** In a list of results, every result of a task of [tasks] comes after a
    successful result of each of its dependencies. *)
Definition dependenciesFirst (tasks : list Task) (rs : list TaskResult) : Prop :=
  forall before r after task,
    rs = before ++ r :: after -> In task tasks -> Name task = TaskName r ->
    depsSucceeded before task.

(** The invariant of [Run] on a workflow with unique task names: the state
    is what recording [allResults] one by one gives, no name has two
    results, every result belongs to a task, and dependencies come first. *)
Record Good (e : Engine) (st : RunState) : Prop := mkGood {
  good_replay : st = fold_left record (allResults st) (initialState e);
  good_nodup : NoDup (map TaskName (allResults st));
  good_names : forall r, In r (allResults st) -> In (TaskName r) (map Name (Tasks (workflow_ e)));
  good_order : dependenciesFirst (Tasks (workflow_ e)) (allResults st)
}.

(** Tasks that may be executed next, in this order, from [st]. *)
Record Pending (e : Engine) (st : RunState) (ts : list Task) : Prop := mkPending {
  pending_nodup : NoDup (map Name ts);
  pending_tasks : forall t, In t ts -> In t (Tasks (workflow_ e));
  pending_fresh : forall t, In t ts -> ~ In (Name t) (map TaskName (allResults st));
  pending_deps : forall t, In t ts -> depsSucceeded (allResults st) t
}.

(** [text] is [field] after the executor's resolver: one [ReplaceAll] per
    workflow variable, in some order of the variables. *)
Definition ResolvedBy (vars : gmap string string) (field text : string) : Prop :=
  exists order, order ≡ₚ map_to_list vars /\
                text = fold_left executor.substitute order field.

(** [text] is [field] after the engine's resolver: the workflow variables,
    then the outputs of the recorded results. *)
Definition ResolvedByEngine (e : Engine) (field text : string) : Prop :=
  exists vars outs,
    vars ≡ₚ map_to_list (Variables (workflow_ e)) /\
    outs ≡ₚ map_to_list (results e) /\
    text = fold_left substituteOutput outs (fold_left executor.substitute vars field).

(** What the executor may hand to the outside for [task]: every text of a
    call is the task's field for it, resolved with the workflow variables. *)
Definition resolvedEvent (ex : executor.Executor) (task : Task) (ev : Event) : Prop :=
  let vars := executor.variables ex in
  match ev with
  | EvCmdRun _ _ _ command =>
      ResolvedBy vars (if String.eqb (Script task) EmptyString
                       then Command task else Script task) command
  | EvNewRequest _ _ url body =>
      ResolvedBy vars (URL task) url /\
      match body with
      | Some b => ResolvedBy vars (Body task) b
      | None => Body task = EmptyString
      end
  | EvHeaderSet key value =>
      exists v, Headers task !! key = Some v /\ ResolvedBy vars v value
  | EvReadFile path =>
      ResolvedBy vars (FilePath task) path \/ ResolvedBy vars (SourcePath task) path
  | EvWriteFile path content =>
      (ResolvedBy vars (FilePath task) path /\ ResolvedBy vars (FileContent task) content)
      \/ ResolvedBy vars (DestPath task) path
  | EvRemove path => ResolvedBy vars (FilePath task) path
  | EvNow | EvSleep _ | EvPrint _ | EvRange _ | EvGOOS | EvClientDo | EvReadAll => True
  end.

(** The invariant of task results: an error is present iff not success. *)
Definition errorIffFailed (r : TaskResult) : Prop :=
  is_Some (Error r) <-> Success r = false.

(** The result of a dispatch, as [Execute] assembles it. *)
Definition dispatched (task : Task) (r : TaskResult * option string) : Prop :=
  TaskName r.1 = Name task /\ Error r.1 = r.2 /\
  Success r.1 = match r.2 with None => true | Some _ => false end.

(** A dependency that [dependenciesMet] accepts: marked executed, and not
    recorded with a failure. *)
Definition depMet (rs : gmap string TaskResult) (executed : gmap string bool)
    (dep : string) : Prop :=
  isExecuted executed dep = true /\
  forall r, rs !! dep = Some r -> Success r = true.






(** The world after [time.Sleep(delay)], taken before every attempt but
    the first. A sleep of a delay that is not positive returns at once;
    the source does not call it. *)
Definition afterSleep (delay : Z) (made : nat) (w : World) : World :=
  if (0 <? made)%nat && (0 <? delay)%Z
  then mkWorld (oracle w) (history w ++ [EvSleep delay])
  else w.

(** The world after the progress message printed between two attempts. *)
Definition afterMessage (text : string) (w : World) : World :=
  mkWorld (oracle w) (history w ++ [EvPrint text]).

(** Follows the specification's words (4.2), not the source: loop up to
    [maxAttempts]; sleep [delay] before every retry attempt after the
    first; invoke the task backend; stop looping on success; on exhausting
    the attempts the last failure's result is returned.
    [Supervised backend delay left made w r w' used] : with [left] attempts
    allowed and [made] attempts made so far, the supervision started in [w]
    returns [r] in [w'], having made [used] attempts in all. *)
Inductive Supervised (backend : M (TaskResult * option string)) (delay : Z)
  : nat -> nat -> World -> TaskResult -> World -> nat -> Prop :=
| supervised_success left made w r w' :
    backend (afterSleep delay made w) = ((r, None), w') ->
    Supervised backend delay (S left) made w r w' (S made)
| supervised_exhausted made w r err w' :
    backend (afterSleep delay made w) = ((r, Some err), w') ->
    Supervised backend delay 1 made w r w' (S made)
| supervised_retry left made w r err w1 text r' w' used :
    backend (afterSleep delay made w) = ((r, Some err), w1) ->
    Supervised backend delay (S left) (S made) (afterMessage text w1) r' w' used ->
    Supervised backend delay (S (S left)) made w r' w' used.

(** The retry policy [executeTask] derives from a task. *)
Definition effectiveAttempts (task : Task) : Z :=
  if (0 <? MaxAttempts (Retry task))%Z then MaxAttempts (Retry task) else 1%Z.
Definition effectiveDelay (task : Task) : Z :=
  if (0 <? MaxAttempts (Retry task))%Z then Delay (Retry task) else 0%Z.
Definition taskContext (ctx : Context) (task : Task) : Context :=
  if (0 <? Timeout task)%Z then WithTimeout ctx (Timeout task) else ctx.

Definition sleeps (h : list Event) : list Event :=
  List.filter (fun ev => match ev with EvSleep _ => true | _ => false end) h.

(** A state [Run] can be in: the initial state after some results of tasks
    of the workflow were recorded. *)
Definition Replayed (e : Engine) (st : RunState) : Prop :=
  exists rs, st = fold_left record rs (initialState e) /\
             forall r, In r rs -> In (TaskName r) (map Name (Tasks (workflow_ e))).

(** ** Concrete environments, tasks and workflows

    Used to evaluate the program on explicit inputs. *)

Definition doubleQuote : string := String (ascii_of_nat 34) EmptyString.

(** A task with every optional field left out. *)
Definition plainTask (name type command : string) (deps : list string) : Task :=
  {| Name := name; Type_ := type; Command := command; Script := EmptyString;
     URL := EmptyString; Method := EmptyString; Headers := ∅; Body := EmptyString;
     FilePath := EmptyString; FileContent := EmptyString; FileAction := EmptyString;
     SourcePath := EmptyString; DestPath := EmptyString; DependsOn := deps;
     Condition := EmptyString; Retry := {| MaxAttempts := 0; Delay := 0 |};
     Timeout := 0; ContinueOnError := false; Parallel := false |}.

Definition withCondition (condition : string) (t : Task) : Task :=
  {| Name := Name t; Type_ := Type_ t; Command := Command t; Script := Script t;
     URL := URL t; Method := Method t; Headers := Headers t; Body := Body t;
     FilePath := FilePath t; FileContent := FileContent t; FileAction := FileAction t;
     SourcePath := SourcePath t; DestPath := DestPath t; DependsOn := DependsOn t;
     Condition := condition; Retry := Retry t; Timeout := Timeout t;
     ContinueOnError := ContinueOnError t; Parallel := Parallel t |}.

Definition withRetry (maxAttempts delay : Z) (t : Task) : Task :=
  {| Name := Name t; Type_ := Type_ t; Command := Command t; Script := Script t;
     URL := URL t; Method := Method t; Headers := Headers t; Body := Body t;
     FilePath := FilePath t; FileContent := FileContent t; FileAction := FileAction t;
     SourcePath := SourcePath t; DestPath := DestPath t; DependsOn := DependsOn t;
     Condition := Condition t;
     Retry := {| MaxAttempts := maxAttempts; Delay := delay |}; Timeout := Timeout t;
     ContinueOnError := ContinueOnError t; Parallel := Parallel t |}.

Definition withContinueOnError (t : Task) : Task :=
  {| Name := Name t; Type_ := Type_ t; Command := Command t; Script := Script t;
     URL := URL t; Method := Method t; Headers := Headers t; Body := Body t;
     FilePath := FilePath t; FileContent := FileContent t; FileAction := FileAction t;
     SourcePath := SourcePath t; DestPath := DestPath t; DependsOn := DependsOn t;
     Condition := Condition t; Retry := Retry t; Timeout := Timeout t;
     ContinueOnError := true; Parallel := Parallel t |}.

Definition lastCommand (h : list Event) : string :=
  match last h with
  | Some (EvCmdRun _ _ _ command) => command
  | _ => EmptyString
  end.

Definition countCommands (h : list Event) : nat :=
  length (List.filter (fun ev => match ev with EvCmdRun _ _ _ _ => true | _ => false end) h).

(** A Unix machine on which [sh -c "echo TEXT"] prints TEXT, [sh -c false]
    fails, and the rest succeeds quietly; the clock ticks with every call. *)
Definition echoOracle : Oracle :=
  {| o_now := fun h => Z.of_nat (length h);
     o_order := fun _ => 0%nat;
     o_goos := fun _ => "linux";
     o_cmd := fun h =>
       let command := lastCommand h in
       if String.eqb command "false"
       then mkCmdOutcome EmptyString EmptyString (Some "exit status 1")
       else if strings.HasPrefix command "echo "
            then mkCmdOutcome (strings.ReplaceAll command "echo " EmptyString)
                              EmptyString None
            else mkCmdOutcome EmptyString EmptyString None;
     o_new_request := fun _ => None;
     o_client_do := fun _ => inr 200%Z;
     o_read_all := fun _ => inr EmptyString;
     o_read_file := fun _ => inr EmptyString;
     o_write_file := fun _ => None;
     o_remove := fun _ => None |}.

(** A machine whose first two commands fail and whose later ones succeed,
    printing which attempt it was. *)
Definition flakyOracle : Oracle :=
  {| o_now := fun h => Z.of_nat (length h);
     o_order := fun _ => 0%nat;
     o_goos := fun _ => "linux";
     o_cmd := fun h =>
       let k := countCommands h in
       if (k <? 3)%nat
       then mkCmdOutcome EmptyString "not yet" (Some "exit status 1")
       else mkCmdOutcome ("output of attempt " +:+ Z_to_string (Z.of_nat k))
                         EmptyString None;
     o_new_request := fun _ => None;
     o_client_do := fun _ => inr 200%Z;
     o_read_all := fun _ => inr EmptyString;
     o_read_file := fun _ => inr EmptyString;
     o_write_file := fun _ => None;
     o_remove := fun _ => None |}.

Definition echoWorld : World := mkWorld echoOracle [].
Definition flakyWorld : World := mkWorld flakyOracle [].

Definition workflowOf (vars : gmap string string) (tasks : list Task) : Workflow :=
  {| WfName := "example"; Description := EmptyString; Variables := vars; Tasks := tasks |}.

(** The condition of the documentation: [${env} == "prod"], and the same
    without the spaces around the operator. *)
Definition envIsProd : string :=
  "${env} == " +:+ doubleQuote +:+ "prod" +:+ doubleQuote.
Definition envIsProdTight : string :=
  "${env}==" +:+ doubleQuote +:+ "prod" +:+ doubleQuote.

Definition engineWithEnv (value : string) : Engine :=
  NewEngine (workflowOf {["env" := value]} []).

(** A shell task allowed three attempts, five nanoseconds apart. *)
Definition flakyTask : Task :=
  withRetry 3 5 (plainTask "fetch" "shell" "curl example" []).

(** A task that fails (the command [false]) followed by an independent
    task. *)
Definition failingTask : Task := plainTask "lint" "shell" "false" [].
Definition nextTask : Task := plainTask "package" "shell" "echo packaged" [].
Definition failFastWorkflow : Workflow := workflowOf ∅ [failingTask; nextTask].

(** [test] depends on [build]. *)
Definition buildTask : Task := plainTask "build" "shell" "echo built" [].
Definition testTask : Task := plainTask "test" "shell" "echo tested" ["build"].
Definition pipeline : Workflow := workflowOf ∅ [testTask; buildTask].

Definition builtResult : TaskResult :=
  {| TaskName := "build"; Success := true; Error := None; Output := "built";
     StartTime := 1; EndTime := 5 |}.
Definition testedResult : TaskResult :=
  {| TaskName := "test"; Success := true; Error := None; Output := "tested";
     StartTime := 6; EndTime := 10 |}.

(** [report] uses the output of [greet], on which it depends, in its
    command. *)
Definition greetTask : Task := plainTask "greet" "shell" "echo hi" [].
Definition reportTask : Task :=
  plainTask "report" "shell" "echo got ${greet.output}" ["greet"].
Definition reportWorkflow : Workflow := workflowOf ∅ [greetTask; reportTask].

(** The command lines that were run, in order. *)
Definition commands (h : list Event) : list string :=
  omap (fun ev => match ev with EvCmdRun _ _ _ command => Some command | _ => None end) h.

(** An engine that has recorded the success of [greet]. *)
Definition greetedEngine : Engine :=
  storeResult (NewEngine reportWorkflow)
    {| TaskName := "greet"; Success := true; Error := None; Output := "hi";
       StartTime := 1; EndTime := 5 |}.

Definition withName (name : string) (t : Task) : Task :=
  {| Name := name; Type_ := Type_ t; Command := Command t; Script := Script t;
     URL := URL t; Method := Method t; Headers := Headers t; Body := Body t;
     FilePath := FilePath t; FileContent := FileContent t; FileAction := FileAction t;
     SourcePath := SourcePath t; DestPath := DestPath t; DependsOn := DependsOn t;
     Condition := Condition t; Retry := Retry t; Timeout := Timeout t;
     ContinueOnError := ContinueOnError t; Parallel := Parallel t |}.

(** Two tasks under the one name [build], the first failing with
    [continueOnError], and [test], which depends on that name. *)
Definition twiceNamedWorkflow : Workflow :=
  workflowOf ∅ [withContinueOnError (withName "build" failingTask); buildTask; testTask].

(** ** pkg/parser *)

Module parser.
Section Parser.

(** [yaml.Unmarshal] into a [types.Workflow]: the workflow, or the error
    of the YAML library. The library is outside the repository; the parser
    is stated over whatever it computes. *)
Variable yaml_Unmarshal : string -> Workflow + string.

(** [ParseWorkflowString]. *)
Definition ParseWorkflowString (yamlContent : string) : Workflow + string :=
  yaml_Unmarshal yamlContent.

(** [ParseWorkflowFile]. *)
Definition ParseWorkflowFile (filePath : string) : M (Workflow + string) :=
  data <- call (EvReadFile filePath) o_read_file ;;
  match data with
  | inl err => ret (inr err)
  | inr data => ret (yaml_Unmarshal data)
  end.

End Parser.
End parser.

(** ** cmd/taskflow: the [run] command *)

Module cmd.
Section RunCommand.

Variable yaml_Unmarshal : string -> Workflow + string.

(** [%.2f] of [d.Seconds()] for a duration [d] in nanoseconds: a rendering
    of a floating-point number, taken as it is. *)
Variable formatSeconds : Z -> string.

(** How the command ends: it returns, or it calls [os.Exit]. Both writes
    to the standard error of the command come right before an exit, and
    are carried with it. *)
Inductive Finish : Type :=
| Returned
| Exited (stderr : option string) (code : Z).

Definition separator : string :=
  "═══════════════════════════════════════════".

(** [fmt.Println]. *)
Definition fmt_Println (text : string) : M unit := fmt_Printf (text +:+ newline).

(** [engine.Run(ctx)]; [Run] returns for every input ([Run_returns]), so
    the second case never occurs. *)
Definition engine_Run (e : Engine) (ctx : Context) : M (list TaskResult * option string) :=
  fun w =>
    match Run e ctx w with
    | (Some r, w') => (r, w')
    | (None, w') => (([], None), w')
    end.

(** The body of the loop over the results: a line per result, then its
    output or its error, and the count. *)
Definition reportResult (counts : Z * Z) (result : TaskResult) : M (Z * Z) :=
  let duration := (EndTime result - StartTime result)%Z in
  if Success result
  then
    fmt_Printf ("✅ " +:+ TaskName result +:+ " (" +:+ formatSeconds duration
                +:+ "s)" +:+ newline) ;;;
    (if negb (String.eqb (Output result) EmptyString)
        && (String.length (Output result) <? 200)%nat
     then fmt_Printf ("   Output: " +:+ Output result +:+ newline)
     else ret tt) ;;;
    ret ((counts.1 + 1)%Z, counts.2)
  else
    fmt_Printf ("❌ " +:+ TaskName result +:+ " (" +:+ formatSeconds duration
                +:+ "s)" +:+ newline) ;;;
    (match Error result with
     | Some err => fmt_Printf ("   Error: " +:+ err +:+ newline)
     | None => ret tt
     end) ;;;
    ret (counts.1, (counts.2 + 1)%Z).

(** The [Run] function of [runCmd], on its one argument. *)
Definition runCommand (workflowFile : string) : M Finish :=
  fmt_Printf ("📋 Loading workflow from: " +:+ workflowFile +:+ newline) ;;;
  parsed <- parser.ParseWorkflowFile yaml_Unmarshal workflowFile ;;
  match parsed with
  | inr err =>
      ret (Exited (Some ("❌ Error parsing workflow: " +:+ err +:+ newline)) 1)
  | inl wf =>
      fmt_Printf ("📝 Workflow: " +:+ WfName wf +:+ newline) ;;;
      (if String.eqb (Description wf) EmptyString
       then ret tt
       else fmt_Printf ("   " +:+ Description wf +:+ newline)) ;;;
      fmt_Printf ("   Tasks: " +:+ Z_to_string (Z.of_nat (length (Tasks wf)))
                  +:+ newline +:+ newline) ;;;
      let engine := NewEngine wf in
      let ctx := Background in
      startTime <- time_Now ;;
      fmt_Println "🚀 Starting workflow execution..." ;;;
      fmt_Println EmptyString ;;;
      run <- engine_Run engine ctx ;;
      let results := run.1 in
      let err := run.2 in
      finish <- time_Now ;;
      let elapsed := (finish - startTime)%Z in
      fmt_Println EmptyString ;;;
      fmt_Println separator ;;;
      fmt_Println "📊 Execution Summary" ;;;
      fmt_Println separator ;;;
      counts <- forEach results reportResult (0%Z, 0%Z) ;;
      let successCount := counts.1 in
      let failureCount := counts.2 in
      fmt_Println separator ;;;
      fmt_Printf ("Total: " +:+ Z_to_string (Z.of_nat (length results))
                  +:+ " tasks | ✅ Success: " +:+ Z_to_string successCount
                  +:+ " | ❌ Failed: " +:+ Z_to_string failureCount +:+ newline) ;;;
      fmt_Printf ("Total time: " +:+ formatSeconds elapsed +:+ "s" +:+ newline) ;;;
      fmt_Println separator ;;;
      match err with
      | Some err =>
          ret (Exited (Some (newline +:+ "⚠️  Workflow completed with errors: "
                             +:+ err +:+ newline)) 1)
      | None =>
          if (0 <? failureCount)%Z
          then ret (Exited None 1)
          else fmt_Println (newline +:+ "✨ Workflow completed successfully!") ;;;
               ret Returned
      end
  end.

End RunCommand.
End cmd.

(** ** Further vocabulary *)

Definition withCommand (command : string) (t : Task) : Task :=
  {| Name := Name t; Type_ := Type_ t; Command := command; Script := Script t;
     URL := URL t; Method := Method t; Headers := Headers t; Body := Body t;
     FilePath := FilePath t; FileContent := FileContent t; FileAction := FileAction t;
     SourcePath := SourcePath t; DestPath := DestPath t; DependsOn := DependsOn t;
     Condition := Condition t; Retry := Retry t; Timeout := Timeout t;
     ContinueOnError := ContinueOnError t; Parallel := Parallel t |}.

(** The progress messages among some events. *)
Definition prints (h : list Event) : list Event :=
  List.filter (fun ev => match ev with EvPrint _ => true | _ => false end) h.

(** The readings of the clock among some events. *)
Definition clockReads (h : list Event) : list Event :=
  List.filter (fun ev => match ev with EvNow => true | _ => false end) h.

(** A map iteration. *)
Definition isRange (ev : Event) : bool :=
  match ev with EvRange _ => true | _ => false end.

(** What the executor may do under the context [ctx]: it neither sleeps
    nor prints, and its processes and requests carry [ctx]. *)
Definition executorEvent (ctx : Context) (ev : Event) : Prop :=
  match ev with
  | EvSleep _ | EvPrint _ => False
  | EvCmdRun c _ _ _ | EvNewRequest c _ _ _ => c = ctx
  | _ => True
  end.

(** What a backend of the executor may do under the context [ctx]: as the
    executor, and it does not read the clock. *)
Definition backendEvent (ctx : Context) (ev : Event) : Prop :=
  match ev with
  | EvNow | EvSleep _ | EvPrint _ => False
  | EvCmdRun c _ _ _ | EvNewRequest c _ _ _ => c = ctx
  | _ => True
  end.


(** The names [Run] reports as stuck: the tasks, in declared order, whose
    name has no result in [rs]. *)
Definition stuckNames (tasks : list Task) (rs : list TaskResult) : list string :=
  map Name
      (List.filter (fun t => negb (bool_decide (Name t ∈ map TaskName rs))) tasks).

(** The invariant behind the bound on executions: the results gathered and
    the tasks still to execute never outnumber the tasks. *)
Definition withinTasks (st : RunState) : Prop :=
  (length (allResults st) + remaining st <= length (tasksOf st))%nat.

(** A result that lets the sequential group go on after [t]. *)
Definition tolerated (t : Task) (r : TaskResult) : Prop :=
  TaskName r = Name t /\ (Success r = true \/ ContinueOnError t = true).

(** A task of the workflow may have produced [r] without stopping [Run]:
    it carries the name of [r], and [r] is a success unless the task is
    flagged parallel or [continueOnError]. *)
Definition excusable (tasks : list Task) (r : TaskResult) : Prop :=
  exists t, In t tasks /\ Name t = TaskName r /\
            (Success r = true \/ Parallel t = true \/ ContinueOnError t = true).


(** The writes to the file system among some events. *)
Definition fileWrites (h : list Event) : list Event :=
  List.filter (fun ev => match ev with EvWriteFile _ _ | EvRemove _ => true | _ => false end) h.

(** The states of [Run] in which every recorded result is excusable. *)
Definition Tolerant (e : Engine) (st : RunState) : Prop :=
  Replayed e st /\ Forall (excusable (Tasks (workflow_ e))) (allResults st).

(** The three ways [Run] ends, read off its results [rs] and error [err]:
    without error; with the deadlock error over the tasks that have no
    result; or at a failed sequential task, whose result is the last. *)
Definition RunEnds (tasks : list Task) (rs : list TaskResult) (err : option string) : Prop :=
  (err = None /\ Forall (excusable tasks) rs) \/
  (err = Some (deadlockError (stuckNames tasks rs)) /\ Forall (excusable tasks) rs) \/
  (exists pre r t,
      rs = pre ++ [r] /\ Forall (excusable tasks) pre /\
      In t tasks /\ TaskName r = Name t /\ Success r = false /\
      ContinueOnError t = false /\ Parallel t = false /\
      err = Some (failedError t r)).

(** [x] depends on [y], directly or through other tasks: the relation the
    [DependsOn] lists of the tasks span over the names. *)
Inductive dependsOn (tasks : list Task) : string -> string -> Prop :=
| depends_direct b dep :
    In b tasks -> In dep (DependsOn b) -> dependsOn tasks (Name b) dep
| depends_through x y z :
    dependsOn tasks x y -> dependsOn tasks y z -> dependsOn tasks x z.

(** The result recorded last under [name] among [rs]. *)
Definition lastNamed (name : string) (rs : list TaskResult) : option TaskResult :=
  last (List.filter (fun r => String.eqb (TaskName r) name) rs).


(** The first line the [run] command prints. *)
Definition loadingMessage (workflowFile : string) : string :=
  "📋 Loading workflow from: " +:+ workflowFile +:+ newline.

(** The two lines the [run] command writes to its standard error. *)
Definition parseErrorMessage (err : string) : string :=
  "❌ Error parsing workflow: " +:+ err +:+ newline.
Definition runErrorMessage (err : string) : string :=
  newline +:+ "⚠️  Workflow completed with errors: " +:+ err +:+ newline.

Definition isPrint (ev : Event) : bool :=
  match ev with EvPrint _ => true | _ => false end.

(** The results that succeeded, and those that failed. *)
Definition succeeded (rs : list TaskResult) : list TaskResult := List.filter Success rs.
Definition failed (rs : list TaskResult) : list TaskResult :=
  List.filter (fun r => negb (Success r)) rs.


(** A machine on which no request can be built and no file can be read. *)
Definition brokenOracle : Oracle :=
  {| o_now := fun h => Z.of_nat (length h);
     o_order := fun _ => 0%nat;
     o_goos := fun _ => "linux";
     o_cmd := fun _ => mkCmdOutcome EmptyString EmptyString None;
     o_new_request := fun _ => Some "invalid method";
     o_client_do := fun _ => inr 200%Z;
     o_read_all := fun _ => inr EmptyString;
     o_read_file := fun _ => inl "no such file or directory";
     o_write_file := fun _ => None;
     o_remove := fun _ => None |}.

Definition httpTask (name url : string) : Task :=
  {| Name := name; Type_ := "http"; Command := EmptyString; Script := EmptyString;
     URL := url; Method := EmptyString; Headers := {["Accept" := "text/plain"]};
     Body := EmptyString;
     FilePath := EmptyString; FileContent := EmptyString; FileAction := EmptyString;
     SourcePath := EmptyString; DestPath := EmptyString; DependsOn := [];
     Condition := EmptyString; Retry := {| MaxAttempts := 0; Delay := 0 |};
     Timeout := 0; ContinueOnError := false; Parallel := false |}.

Definition fileTask (name action source dest : string) : Task :=
  {| Name := name; Type_ := "file"; Command := EmptyString; Script := EmptyString;
     URL := EmptyString; Method := EmptyString; Headers := ∅; Body := EmptyString;
     FilePath := source; FileContent := EmptyString; FileAction := action;
     SourcePath := source; DestPath := dest; DependsOn := [];
     Condition := EmptyString; Retry := {| MaxAttempts := 0; Delay := 0 |};
     Timeout := 0; ContinueOnError := false; Parallel := false |}.

(** Two tasks that wait for each other, and a task that waits for a name
    no task carries. *)
Definition chickenTask : Task := plainTask "chicken" "shell" "echo cluck" ["egg"].
Definition eggTask : Task := plainTask "egg" "shell" "echo crack" ["chicken"].
Definition cyclicWorkflow : Workflow := workflowOf ∅ [chickenTask; eggTask].
Definition orphanTask : Task := plainTask "deploy" "shell" "echo deployed" ["release"].
Definition orphanWorkflow : Workflow := workflowOf ∅ [buildTask; orphanTask].

(** The state of [Run] on the pipeline after its first iteration. *)
Definition builtState : RunState :=
  record (initialState (NewEngine pipeline)) builtResult.

(** An engine that has recorded a failure of [greet]. *)
Definition failedGreetEngine : Engine :=
  storeResult (NewEngine reportWorkflow)
    {| TaskName := "greet"; Success := false; Error := Some "exit status 1";
       Output := "hi"; StartTime := 1; EndTime := 5 |}.

(** A machine without the workflow file, a YAML library that accepts
    nothing and one that reads the pipeline out of every file, and a
    rendering of durations. *)
Definition brokenWorld : World := mkWorld brokenOracle [].
Definition rejectingYaml (content : string) : Workflow + string :=
  inr "yaml: unmarshal errors".
Definition pipelineYaml (content : string) : Workflow + string := inl pipeline.
Definition wholeSeconds (d : Z) : string := Z_to_string (d / 1000000000).

(** * Properties *)

(** ** The monad and the environment *)

Section Guarantees.
Context {A B : Type}.

Lemma guarantees_ret (a : A) (Q : A -> Prop) P :
  Q a -> guarantees (ret a) Q P.
Proof.
  intros Ha w. cbn. split; [done|]. split; [done|].
  exists []. by rewrite app_nil_r.
Qed.

Lemma guarantees_bind (c : M A) (k : A -> M B) Q1 (Q2 : B -> Prop) P :
  guarantees c Q1 P ->
  (forall a, Q1 a -> guarantees (k a) Q2 P) ->
  guarantees (bind c k) Q2 P.
Proof.
  intros Hc Hk w. unfold bind.
  destruct (Hc w) as (Hq & Ho & evs & Hh & Hp).
  destruct (c w) as [a w1]; cbn in *.
  destruct (Hk a Hq w1) as (Hq2 & Ho2 & evs2 & Hh2 & Hp2).
  split; [done|]. split; [congruence|].
  exists (evs ++ evs2). split.
  - by rewrite Hh2, Hh, app_assoc.
  - by apply Forall_app.
Qed.


Lemma guarantees_call (ev : Event) (answer : Oracle -> list Event -> A)
    (Q : A -> Prop) (P : Event -> Prop) :
  P ev -> (forall o h, Q (answer o h)) -> guarantees (call ev answer) Q P.
Proof.
  intros Hev Hq w. unfold call; cbn. split; [apply Hq|]. split; [done|].
  exists [ev]. split; [done|]. by constructor.
Qed.

End Guarantees.

Lemma guarantees_if {A} (b : bool) (c1 c2 : M A) Q P :
  guarantees c1 Q P -> guarantees c2 Q P -> guarantees (if b then c1 else c2) Q P.
Proof. by destruct b. Qed.

Lemma arrange_Permutation {A} (l : list A) :
  forall fuel n, fuel = length l -> arrange fuel n l ≡ₚ l.
Proof.
  remember (length l) as len eqn:Hlen.
  revert l Hlen. induction len as [|len IH]; intros l Hlen fuel n ->.
  - destruct l; [done | discriminate].
  - cbn [arrange].
    assert (Hlt : (n mod length l < length l)%nat)
      by (apply Nat.mod_upper_bound; lia).
    destruct (lookup_lt_is_Some_2 l _ Hlt) as [x Hx].
    rewrite Hx.
    etrans; [|symmetry; apply (delete_Permutation l _ x Hx)].
    apply perm_skip.
    pose proof (length_delete l _ (mk_is_Some _ _ Hx)) as Hd.
    apply IH; [lia | done].
Qed.

(** Every order of the entries is the choice of some environment. *)
Lemma arrange_complete {A} (l' : list A) :
  forall l, l' ≡ₚ l -> exists n, arrange (length l) n l = l'.
Proof.
  induction l' as [|x l' IH]; intros l Hperm.
  - apply Permutation_nil in Hperm. subst l. exists 0%nat. reflexivity.
  - assert (Hx : x ∈ l).
    { apply list_elem_of_In, (Permutation_in _ Hperm). by left. }
    apply list_elem_of_lookup in Hx as [i Hi].
    assert (Hrest : l' ≡ₚ delete i l).
    { apply (Permutation_cons_inv (a := x)).
      by rewrite Hperm, <- (delete_Permutation l i x Hi). }
    destruct (IH _ Hrest) as [m Hm].
    pose proof (lookup_lt_Some _ _ _ Hi) as Hlt.
    pose proof (length_delete l i (mk_is_Some _ _ Hi)) as Hlen.
    exists (i + m * length l)%nat.
    destruct (length l) as [|len] eqn:Hl; [lia|].
    cbn [arrange]. rewrite Hl.
    rewrite Nat.Div0.mod_add, Nat.mod_small by lia.
    rewrite Hi. f_equal.
    rewrite Nat.div_add, Nat.div_small by lia. cbn [Nat.add].
    replace len with (length (delete i l)) by lia. exact Hm.
Qed.

Lemma guarantees_rangeMap {V} (m : gmap string V) (P : Event -> Prop) :
  (forall keys, P (EvRange keys)) ->
  guarantees (rangeMap m) (fun entries => entries ≡ₚ map_to_list m) P.
Proof.
  intros HP. unfold rangeMap.
  eapply guarantees_bind.
  - apply (guarantees_call _ _ (fun _ => True)); [apply HP | done].
  - intros n _. apply guarantees_ret. by apply arrange_Permutation.
Qed.

Lemma guarantees_forEach {A S} (l : list A) (body : S -> A -> M S)
    (I : S -> Prop) (P : Event -> Prop) :
  (forall s x, In x l -> I s -> guarantees (body s x) I P) ->
  forall s, I s -> guarantees (forEach l body s) I P.
Proof.
  induction l as [|x l IH]; intros Hbody s Hs; cbn [forEach].
  - by apply guarantees_ret.
  - eapply guarantees_bind.
    + apply Hbody; [by left | done].
    + intros s' Hs'. apply IH; [|done].
      intros s0 y Hy. apply Hbody. by right.
Qed.

(** ** The string functions *)

Lemma replace_from_absent (s old new : string) :
  strings.Contains s old = false -> strings.replace_from 0 s old new = s.
Proof.
  induction s as [|c s IH]; [done|].
  cbn [strings.Contains strings.replace_from].
  intros H. apply orb_false_iff in H as [Hp Hc].
  rewrite Hp. f_equal. by apply IH.
Qed.

(** A text in which [old] does not occur is left as it is. *)
Lemma ReplaceAll_absent (s old new : string) :
  old <> EmptyString ->
  strings.Contains s old = false -> strings.ReplaceAll s old new = s.
Proof.
  intros Hold H. destruct old as [|c old]; [done|].
  by apply replace_from_absent.
Qed.


Lemma placeholder_nonempty (key : string) : executor.placeholder key <> EmptyString.
Proof. done. Qed.

(** ** The executor *)

Lemma Executor_replaceVariables_guarantees ex input (P : Event -> Prop) :
  (forall keys, P (EvRange keys)) ->
  guarantees (executor.replaceVariables ex input)
             (ResolvedBy (executor.variables ex) input) P.
Proof.
  intros HP. unfold executor.replaceVariables.
  eapply guarantees_bind; [by apply guarantees_rangeMap|].
  intros order Hperm. apply guarantees_ret. by exists order.
Qed.

(** A field goes through the resolver; [x] names the resolved text. *)
Tactic Notation "resolve_field" constr(P) "as" ident(x) :=
  eapply guarantees_bind;
  [ apply (Executor_replaceVariables_guarantees _ _ P); done
  | let H := fresh "H" x in intros x H ].

(** A call to the outside whose answer, named [x], is unconstrained. *)
Tactic Notation "outside_call" "as" ident(x) :=
  eapply guarantees_bind with (Q1 := fun _ => True);
  [ apply guarantees_call; [ cbn; eauto | done ] | intros x _ ].

Lemma executeShell_guarantees ex ctx task :
  guarantees (executor.executeShell ex ctx task) (fun _ => True) (resolvedEvent ex task).
Proof.
  unfold executor.executeShell.
  resolve_field (resolvedEvent ex task) as command.
  outside_call as goos.
  eapply guarantees_bind with (Q1 := fun _ => True).
  - apply guarantees_if; apply guarantees_call; done.
  - intros out _. destruct (cmd_err out); by apply guarantees_ret.
Qed.

Lemma executeHTTP_guarantees ex ctx task :
  guarantees (executor.executeHTTP ex ctx task) (fun _ => True) (resolvedEvent ex task).
Proof.
  unfold executor.executeHTTP.
  resolve_field (resolvedEvent ex task) as url.
  eapply guarantees_bind with
    (Q1 := fun body => match body with
                       | Some b => ResolvedBy (executor.variables ex) (Body task) b
                       | None => Body task = EmptyString
                       end).
  { destruct (String.eqb_spec (Body task) EmptyString) as [Hb|Hb].
    - by apply guarantees_ret.
    - resolve_field (resolvedEvent ex task) as b. by apply guarantees_ret. }
  intros body Hbody.
  outside_call as created.
  destruct created as [err|]; [by apply guarantees_ret|].
  eapply guarantees_bind; [by apply guarantees_rangeMap|].
  intros headers Hheaders.
  eapply guarantees_bind with (Q1 := fun _ => True).
  { apply guarantees_forEach; [|done].
    intros [] [key v] Hin _. cbn [fst snd].
    resolve_field (resolvedEvent ex task) as value.
    apply guarantees_call; [|done]. cbn.
    exists v. split; [|done].
    apply elem_of_map_to_list. rewrite <- Hheaders.
    by apply list_elem_of_In. }
  intros _ _.
  outside_call as resp.
  destruct resp as [err|status]; [by apply guarantees_ret|].
  outside_call as read.
  destruct read as [err|respBody]; [by apply guarantees_ret|].
  destruct (400 <=? status)%Z; by apply guarantees_ret.
Qed.

Lemma fileRead_guarantees ex task :
  guarantees (executor.fileRead ex task) (fun _ => True) (resolvedEvent ex task).
Proof.
  unfold executor.fileRead. resolve_field (resolvedEvent ex task) as filePath.
  outside_call as r. destruct r; by apply guarantees_ret.
Qed.

Lemma fileWrite_guarantees ex task :
  guarantees (executor.fileWrite ex task) (fun _ => True) (resolvedEvent ex task).
Proof.
  unfold executor.fileWrite.
  resolve_field (resolvedEvent ex task) as filePath.
  resolve_field (resolvedEvent ex task) as content.
  outside_call as r. destruct r; by apply guarantees_ret.
Qed.

Lemma fileDelete_guarantees ex task :
  guarantees (executor.fileDelete ex task) (fun _ => True) (resolvedEvent ex task).
Proof.
  unfold executor.fileDelete. resolve_field (resolvedEvent ex task) as filePath.
  outside_call as r. destruct r; by apply guarantees_ret.
Qed.

Lemma fileCopy_guarantees ex task :
  guarantees (executor.fileCopy ex task) (fun _ => True) (resolvedEvent ex task).
Proof.
  unfold executor.fileCopy.
  resolve_field (resolvedEvent ex task) as sourcePath.
  resolve_field (resolvedEvent ex task) as destPath.
  outside_call as r. destruct r as [err|sourceData]; [by apply guarantees_ret|].
  outside_call as written. destruct written; by apply guarantees_ret.
Qed.

Lemma executeFile_guarantees ex ctx task :
  guarantees (executor.executeFile ex ctx task) (fun _ => True) (resolvedEvent ex task).
Proof.
  unfold executor.executeFile.
  apply guarantees_if; [apply fileRead_guarantees|].
  apply guarantees_if; [apply fileWrite_guarantees|].
  apply guarantees_if; [apply fileDelete_guarantees|].
  apply guarantees_if; [apply fileCopy_guarantees|].
  by apply guarantees_ret.
Qed.

(** [Execute]: the result carries the task's name, its error is the error
    returned beside it, it is a success exactly when there is none, and
    whatever went to a backend was resolved from the task's fields. *)
Lemma Execute_guarantees ex ctx task :
  guarantees (executor.Execute ex ctx task) (dispatched task) (resolvedEvent ex task).
Proof.
  unfold executor.Execute.
  outside_call as start.
  eapply guarantees_bind with (Q1 := fun _ => True).
  { apply guarantees_if; [apply executeShell_guarantees|].
    apply guarantees_if; [apply executeHTTP_guarantees|].
    apply guarantees_if; [apply executeFile_guarantees|].
    by apply guarantees_ret. }
  intros [output err] _.
  outside_call as finish.
  apply guarantees_ret. by destruct err.
Qed.

(** ** The engine: one task *)

Lemma Engine_replaceVariables_guarantees e input (P : Event -> Prop) :
  (forall keys, P (EvRange keys)) ->
  guarantees (replaceVariables e input) (ResolvedByEngine e input) P.
Proof.
  intros HP. unfold replaceVariables.
  eapply guarantees_bind; [by apply guarantees_rangeMap|]. intros vars Hvars.
  eapply guarantees_bind; [by apply guarantees_rangeMap|]. intros outs Houts.
  apply guarantees_ret. by exists vars, outs.
Qed.

Lemma evaluateCondition_guarantees e condition (P : Event -> Prop) :
  (forall keys, P (EvRange keys)) ->
  guarantees (evaluateCondition e condition)
             (fun holds => exists text, ResolvedByEngine e condition text /\
                                        holds = evaluateResolved text) P.
Proof.
  intros HP. unfold evaluateCondition.
  eapply guarantees_bind; [by apply Engine_replaceVariables_guarantees|].
  intros text Htext. apply guarantees_ret. by exists text.
Qed.

Lemma conditionSkips_guarantees e task (P : Event -> Prop) :
  (forall keys, P (EvRange keys)) ->
  guarantees (conditionSkips e task) (fun _ => True) P.
Proof.
  intros HP. unfold conditionSkips. apply guarantees_if.
  - by apply guarantees_ret.
  - eapply guarantees_bind; [by apply evaluateCondition_guarantees|].
    intros holds _. by apply guarantees_ret.
Qed.

(** What [executeTask] returns for [task]: a result under the task's name
    that has an error iff it is not a success. *)
Lemma dispatched_result task r :
  dispatched task r -> TaskName r.1 = Name task /\ errorIffFailed r.1.
Proof.
  intros (Hn & He & Hs). split; [done|]. unfold errorIffFailed.
  rewrite He, Hs. destruct r.2 as [m|].
  - split; [done | by eexists].
  - split; [by intros [? ?] | done].
Qed.

Lemma attemptLoop_guarantees e taskCtx task maxAttempts delay rest :
  forall attempt,
    guarantees (attemptLoop e taskCtx task maxAttempts delay rest attempt)
               (fun r => TaskName r = Name task /\ errorIffFailed r)
               (resolvedEvent (executor_ e) task).
Proof.
  induction rest as [|rest IH]; intros attempt; cbn [attemptLoop].
  all: eapply guarantees_bind with (Q1 := fun _ => True);
    [apply guarantees_if; [by apply guarantees_call | by apply guarantees_ret]|];
    intros _ _;
    (eapply guarantees_bind; [apply Execute_guarantees|]);
    intros r Hr; apply dispatched_result in Hr;
    destruct r.2; [|by apply guarantees_ret];
    (eapply guarantees_bind with (Q1 := fun _ => True);
     [apply guarantees_if; [by apply guarantees_call | by apply guarantees_ret]|]);
    intros _ _.
  - by apply guarantees_ret.
  - apply IH.
Qed.

Lemma executeTask_guarantees e ctx task :
  guarantees (executeTask e ctx task)
             (fun r => TaskName r = Name task /\ errorIffFailed r)
             (resolvedEvent (executor_ e) task).
Proof.
  unfold executeTask.
  eapply guarantees_bind; [by apply conditionSkips_guarantees|].
  intros [] _.
  - eapply guarantees_bind with (Q1 := fun _ => True);
      [by apply guarantees_call|]. intros start _.
    eapply guarantees_bind with (Q1 := fun _ => True);
      [by apply guarantees_call|]. intros finish _.
    apply guarantees_ret. split; [done|]. unfold errorIffFailed; cbn.
    split; [by intros [] | done].
  - apply attemptLoop_guarantees.
Qed.

Lemma executeTask_name e ctx task w :
  TaskName (executeTask e ctx task w).1 = Name task.
Proof. by destruct (executeTask_guarantees e ctx task w) as ((? & ?) & _). Qed.

(** ** C9 *)

(** C9. Every result of the backend dispatcher [Execute], and every result
    of [executeTask] (a condition skip, a success or a failure of any
    attempt, an unknown action kind), has an error if and only if its
    success flag is false; the dispatcher's result carries exactly the
    error the dispatcher returns beside it. *)
Theorem C9_error_present_iff_not_success :
  (forall ex ctx task w,
      let r := (executor.Execute ex ctx task w).1 in
      errorIffFailed r.1 /\ Error r.1 = r.2) /\
  (forall e ctx task w, errorIffFailed (executeTask e ctx task w).1).
Proof.
  split.
  - intros ex ctx task w.
    destruct (Execute_guarantees ex ctx task w) as (Hd & _).
    split; [by apply (dispatched_result task) | by destruct Hd as (_ & ? & _)].
  - intros e ctx task w.
    by destruct (executeTask_guarantees e ctx task w) as ((_ & ?) & _).
Qed.

(** ** The condition of a task *)





(** ** C10 *)



(** ** Dependencies *)

Lemma depsMet_Forall rs executed deps :
  depsMet rs executed deps = true <-> Forall (depMet rs executed) deps.
Proof.
  induction deps as [|dep deps IH]; cbn [depsMet].
  - split; [constructor | done].
  - destruct (isExecuted executed dep) eqn:Hex; cbn.
    + destruct (rs !! dep) as [r|] eqn:Hr.
      * destruct (Success r) eqn:Hs; cbn.
        -- rewrite IH. split.
           ++ intros H. constructor; [|done]. split; [done|]. intros r0 Hr0. congruence.
           ++ by inversion 1.
        -- split; [done|]. inversion 1 as [|? ? [_ Hd] _]; subst.
           specialize (Hd r Hr). congruence.
      * rewrite IH. split.
        -- intros H. constructor; [|done]. split; [done|]. intros r0 Hr0. congruence.
        -- by inversion 1.
    + split; [done|]. inversion 1 as [|? ? [Hd _] _]; subst. congruence.
Qed.

Lemma isExecuted_record st r name :
  isExecuted (executed (record st r)) name =
  if decide (TaskName r = name) then true else isExecuted (executed st) name.
Proof.
  unfold isExecuted, record; cbn. rewrite lookup_insert.
  by destruct (decide (TaskName r = name)).
Qed.

Lemma results_record st r name :
  results (engine (record st r)) !! name =
  if decide (TaskName r = name) then Some r else results (engine st) !! name.
Proof.
  unfold record, storeResult; cbn. rewrite lookup_insert.
  by destruct (decide (TaskName r = name)).
Qed.

(** Recording a success keeps every met dependency met, and meets the one
    just recorded. *)
Lemma depMet_record_success st r dep :
  Success r = true ->
  dep = TaskName r \/ depMet (results (engine st)) (executed st) dep ->
  depMet (results (engine (record st r))) (executed (record st r)) dep.
Proof.
  intros Hs Hdep. unfold depMet.
  rewrite isExecuted_record, results_record.
  destruct (decide (TaskName r = dep)) as [Heq|Hne].
  - split; [done|]. intros r0 [= <-]. exact Hs.
  - destruct Hdep as [->|Hmet]; [done | exact Hmet].
Qed.

(** ** C8 *)

(** C8. A task whose condition is not empty and evaluates to false is not
    run: [executeTask] returns at once a success under the task's name,
    without error, whose output is exactly "Skipped due to condition";
    the only calls to the outside are the two map iterations of the
    resolver and the two clock readings of the result, none of them a
    backend call. Once recorded, the skipped task counts as executed and
    successful: a task whose other dependencies are met has all its
    dependencies met. *)
Theorem C8_false_condition_skips e ctx task w :
  Condition task <> EmptyString ->
  (evaluateCondition e (Condition task) w).1 = false ->
  let r := (executeTask e ctx task w).1 in
  let w' := (executeTask e ctx task w).2 in
  (TaskName r = Name task /\ Success r = true /\ Error r = None /\
   Output r = "Skipped due to condition") /\
  (history w' =
     history w ++ [EvRange (map_to_list (Variables (workflow_ e))).*1;
                   EvRange (map_to_list (results e)).*1; EvNow; EvNow] /\
   Forall (fun ev => isBackendCall ev = false)
          [EvRange (map_to_list (Variables (workflow_ e))).*1;
           EvRange (map_to_list (results e)).*1; EvNow; EvNow]) /\
  (forall st dependent,
      (forall dep, In dep (DependsOn dependent) ->
                   dep = Name task \/ depMet (results (engine st)) (executed st) dep) ->
      dependenciesMet (engine (record st r)) dependent (executed (record st r)) = true).
Proof.
  intros Hne Hfalse r w'.
  assert (Hrun : executeTask e ctx task w =
                 (start <- time_Now ;; finish <- time_Now ;;
                  ret (skippedResult task start finish))
                   (evaluateCondition e (Condition task) w).2).
  { unfold executeTask, conditionSkips.
    destruct (String.eqb_spec (Condition task) EmptyString) as [|_]; [done|].
    unfold bind at 1 2.
    destruct (evaluateCondition e (Condition task) w) as [holds w1].
    cbn in Hfalse. by subst holds. }
  assert (Hr : r = skippedResult task (StartTime r) (EndTime r)).
  { subst r. rewrite Hrun. reflexivity. }
  split; [by rewrite Hr|]. split.
  - split; [|by repeat constructor].
    subst w'. rewrite Hrun.
    unfold evaluateCondition, replaceVariables, rangeMap, time_Now, call, bind, ret.
    cbn. by rewrite <- !app_assoc.
  - intros st dependent Hdeps. unfold dependenciesMet.
    apply depsMet_Forall, List.Forall_forall. intros dep Hin.
    apply depMet_record_success; [by rewrite Hr|].
    destruct (Hdeps dep Hin) as [->|?]; [left | by right].
    by rewrite Hr.
Qed.

Lemma C8_witness :
  Output (executeTask (NewEngine (workflowOf {["deploy" := "false"]} [])) Background
            (withCondition "${deploy}" (plainTask "release" "shell" "echo released" []))
            echoWorld).1
  = "Skipped due to condition".
Proof.
  refine (proj2 (proj2 (proj2 (proj1
    (C8_false_condition_skips
       (NewEngine (workflowOf {["deploy" := "false"]} [])) Background
       (withCondition "${deploy}" (plainTask "release" "shell" "echo released" []))
       echoWorld _ _))))).
  - discriminate.
  - vm_compute. reflexivity.
Defined.

(** ** C4: the condition evaluator *)











(** The example of the documentation: with [env] set to [prod],
    [${env} == "prod"] evaluates to false. The quotes are trimmed before
    the white space, so the quote after the space stays on the right-hand
    side; written without spaces the same comparison holds. *)
Lemma quoted_right_side_after_space :
  (evaluateCondition (engineWithEnv "prod") envIsProd echoWorld).1 = false /\
  strings.TrimSpace (strings.Trim (" " +:+ doubleQuote +:+ "prod" +:+ doubleQuote) quotes)
    = doubleQuote +:+ "prod" /\
  (evaluateCondition (engineWithEnv "prod") envIsProdTight echoWorld).1 = true.
Proof. vm_compute. repeat split; reflexivity. Qed.

(** ** C6: the retry loop *)

Lemma sleep_step (delay attempt : Z) (made : nat) (w : World) :
  attempt = Z.of_nat made ->
  (if (0 <? attempt)%Z && (0 <? delay)%Z then time_Sleep delay else ret tt) w
  = (tt, afterSleep delay made w).
Proof.
  intros ->. unfold afterSleep.
  assert (Heq : (0 <? Z.of_nat made)%Z = (0 <? made)%nat).
  { destruct made; [done|].
    transitivity true; [by apply Z.ltb_lt; lia | symmetry; by apply Nat.ltb_lt; lia]. }
  rewrite Heq. by destruct ((0 <? made)%nat && (0 <? delay)%Z).
Qed.

Lemma attemptLoop_Supervised e taskCtx task maxAttempts delay rest :
  forall attempt made w,
    attempt = Z.of_nat made ->
    (maxAttempts - 1 - attempt)%Z = Z.of_nat rest ->
    exists used,
      Supervised (executor.Execute (executor_ e) taskCtx task) delay (S rest) made w
        (attemptLoop e taskCtx task maxAttempts delay rest attempt w).1
        (attemptLoop e taskCtx task maxAttempts delay rest attempt w).2 used
      /\ (made < used <= made + S rest)%nat.
Proof.
  induction rest as [|rest IH]; intros attempt made w Hmade Hrest.
  - cbn [attemptLoop]. unfold bind.
    rewrite (sleep_step delay attempt made w Hmade).
    destruct (executor.Execute (executor_ e) taskCtx task (afterSleep delay made w))
      as [[r err] w1] eqn:Hexec. cbn [fst snd].
    exists (S made). split; [|lia].
    destruct err as [err|].
    + assert (Hlast : (attempt <? maxAttempts - 1)%Z = false) by (apply Z.ltb_ge; lia).
      rewrite Hlast. cbn. by eapply supervised_exhausted.
    + cbn. by apply supervised_success.
  - cbn [attemptLoop]. unfold bind.
    rewrite (sleep_step delay attempt made w Hmade).
    destruct (executor.Execute (executor_ e) taskCtx task (afterSleep delay made w))
      as [[r err] w1] eqn:Hexec. cbn [fst snd].
    destruct err as [err|].
    + assert (Hmore : (attempt <? maxAttempts - 1)%Z = true) by (apply Z.ltb_lt; lia).
      rewrite Hmore. cbn [fmt_Printf call fst snd].
      destruct (IH (attempt + 1)%Z (S made)
                   (afterMessage (retryMessage task attempt maxAttempts) w1))
        as (used & Hsup & Hused); [lia | lia |].
      exists used. split; [|lia].
      eapply supervised_retry; [exact Hexec | exact Hsup].
    + exists (S made). split; [|lia]. cbn. by apply supervised_success.
Qed.

(** C6. Past its condition, [executeTask] supervises the backend as the
    specification says: at most [maxAttempts] attempts (one when the task
    sets no retry policy), a sleep of the configured delay before every
    attempt but the first, the loop left at the first success, and the
    last attempt's result returned when every attempt failed. In
    particular, with three attempts allowed and a backend that fails twice
    and then succeeds, the result is the success of the third attempt,
    after three commands and two sleeps. *)
Theorem C6_retry_loop :
  (forall e ctx task w,
      exists used,
        Supervised (executor.Execute (executor_ e) (taskContext ctx task) task)
          (effectiveDelay task) (Z.to_nat (effectiveAttempts task)) 0 w
          (executeWithRetries e ctx task w).1 (executeWithRetries e ctx task w).2 used
        /\ (1 <= used <= Z.to_nat (effectiveAttempts task))%nat) /\
  (forall e ctx task w w1,
      conditionSkips e task w = (false, w1) ->
      executeTask e ctx task w = executeWithRetries e ctx task w1) /\
  (forall task,
      (MaxAttempts (Retry task) <= 0)%Z ->
      effectiveAttempts task = 1%Z /\ effectiveDelay task = 0%Z) /\
  (let out := executeTask (NewEngine (workflowOf ∅ [flakyTask])) Background
                          flakyTask flakyWorld in
   Success out.1 = true /\ Output out.1 = "output of attempt 3" /\
   countCommands (history out.2) = 3%nat /\
   sleeps (history out.2) = [EvSleep 5; EvSleep 5]).
Proof.
  split; [|split; [|split]].
  - intros e ctx task w.
    assert (Hpos : (1 <= effectiveAttempts task)%Z).
    { unfold effectiveAttempts.
      destruct (Z.ltb_spec 0 (MaxAttempts (Retry task))); lia. }
    destruct (attemptLoop_Supervised e (taskContext ctx task) task
                (effectiveAttempts task) (effectiveDelay task)
                (Z.to_nat (effectiveAttempts task - 1)) 0%Z 0%nat w)
      as (used & Hsup & Hused); [done | lia |].
    exists used.
    replace (Z.to_nat (effectiveAttempts task))
      with (S (Z.to_nat (effectiveAttempts task - 1))) by lia.
    split; [exact Hsup | lia].
  - intros e ctx task w w1 Hskip. unfold executeTask, bind. by rewrite Hskip.
  - intros task Hle. unfold effectiveAttempts, effectiveDelay.
    destruct (Z.ltb_spec 0 (MaxAttempts (Retry task))); [lia | done].
  - vm_compute. repeat split; reflexivity.
Qed.

Lemma C6_witness :
  effectiveAttempts (plainTask "build" "shell" "make" []) = 1%Z.
Proof.
  refine (proj1 (proj1 (proj2 (proj2 C6_retry_loop))
                   (plainTask "build" "shell" "make" []) _)).
  vm_compute. discriminate.
Defined.

(** ** The engine: the loop of [Run] *)

Lemma executeParallel_names e ctx ts :
  forall w, map TaskName (executeParallel e ctx ts w).1 = map Name ts.
Proof.
  induction ts as [|t ts IH]; intros w; [done|].
  cbn [executeParallel]. unfold bind.
  pose proof (executeTask_name e ctx t w) as Hname.
  destruct (executeTask e ctx t w) as [r w1].
  specialize (IH w1).
  destruct (executeParallel e ctx ts w1) as [rs w2].
  cbn in *. by rewrite Hname, IH.
Qed.

Lemma workflow_record st r : workflow_ (engine (record st r)) = workflow_ (engine st).
Proof. done. Qed.

Lemma workflow_recorded rs : forall st,
  workflow_ (engine (fold_left record rs st)) = workflow_ (engine st).
Proof. induction rs as [|r rs IH]; intros st; [done|]. cbn. by rewrite IH. Qed.

Lemma tasksOf_recorded rs st : tasksOf (fold_left record rs st) = tasksOf st.
Proof. unfold tasksOf. by rewrite workflow_recorded. Qed.

Lemma allResults_recorded rs : forall st,
  allResults (fold_left record rs st) = allResults st ++ rs.
Proof.
  induction rs as [|r rs IH]; intros st; cbn.
  - by rewrite app_nil_r.
  - rewrite IH. cbn. by rewrite <- app_assoc.
Qed.

Lemma isExecuted_recorded rs : forall st name,
  isExecuted (executed (fold_left record rs st)) name = true <->
  isExecuted (executed st) name = true \/ In name (map TaskName rs).
Proof.
  induction rs as [|r rs IH]; intros st name; cbn [fold_left map In].
  - tauto.
  - rewrite IH, isExecuted_record.
    destruct (decide (TaskName r = name)); tauto.
Qed.

Lemma fold_left_record_app rs1 rs2 st :
  fold_left record (rs1 ++ rs2) st = fold_left record rs2 (fold_left record rs1 st).
Proof. apply fold_left_app. Qed.

(** How the sequential group ends: every task recorded, or the run
    returned at the first failure without [continueOnError]. *)
Lemma runSequential_spec ctx ts :
  forall st w,
    let out := runSequential ctx ts st w in
    (exists rs, out.1 = Continue (fold_left record rs st) /\
                map TaskName rs = map Name ts) \/
    (exists pre t post rs r,
        ts = pre ++ t :: post /\ map TaskName rs = map Name pre /\
        TaskName r = Name t /\ Success r = false /\ ContinueOnError t = false /\
        out.1 = Return (allResults st ++ rs ++ [r]) (Some (failedError t r))).
Proof.
  induction ts as [|t ts IH]; intros st w; cbn [runSequential].
  - left. by exists [].
  - unfold bind.
    pose proof (executeTask_name (engine st) ctx t w) as Hname.
    destruct (executeTask (engine st) ctx t w) as [r w1]. cbn [fst] in Hname.
    destruct (negb (Success r) && negb (ContinueOnError t)) eqn:Hstop.
    + right. apply andb_true_iff in Hstop as [Hs Hc].
      apply negb_true_iff in Hs, Hc.
      exists [], t, ts, [], r. by repeat split.
    + destruct (IH (record st r) w1) as [(rs & Hout & Hnames) | Hret].
      * left. exists (r :: rs). split; [exact Hout|]. cbn. by rewrite Hname, Hnames.
      * right. destruct Hret as (pre & t' & post & rs & r' & -> & Hn & Hn' & Hs & Hc & Hout).
        exists (t :: pre), t', post, (r :: rs), r'.
        repeat split; try done.
        -- cbn. by rewrite Hname, Hn.
        -- rewrite Hout. cbn. by rewrite <- app_assoc.
Qed.

Lemma runParallel_spec ctx ts st w :
  exists rs, (runParallel ctx ts st w).1 = fold_left record rs st /\
             map TaskName rs = map Name ts.
Proof.
  destruct ts as [|t ts]; [by exists []|].
  unfold runParallel, bind.
  pose proof (executeParallel_names (engine st) ctx (t :: ts) w) as Hnames.
  destruct (executeParallel (engine st) ctx (t :: ts) w) as [rs w1].
  by exists rs.
Qed.

(** How an iteration of [Run] ends when some task is ready. *)
Lemma round_spec ctx st w :
  readyTasks st <> [] ->
  let ready := readyTasks st in
  let out := round ctx st w in
  (exists rs, out.1 = Continue (fold_left record rs st) /\
              map TaskName rs = map Name (parallelTasks ready ++ sequentialTasks ready)) \/
  (exists pre t post rs r,
      sequentialTasks ready = pre ++ t :: post /\
      map TaskName rs = map Name (parallelTasks ready ++ pre) /\
      TaskName r = Name t /\ Success r = false /\ ContinueOnError t = false /\
      out.1 = Return (allResults st ++ rs ++ [r]) (Some (failedError t r))).
Proof.
  intros Hready ready out. subst out. unfold round. fold ready.
  destruct ready as [|t0 ready0] eqn:Hr; [done|]. rewrite <- Hr.
  unfold bind.
  destruct (runParallel_spec ctx (parallelTasks ready) st w) as (rsp & Hp & Hnp).
  destruct (runParallel ctx (parallelTasks ready) st w) as [stp wp]. cbn [fst] in Hp.
  subst stp.
  destruct (runSequential_spec ctx (sequentialTasks ready) (fold_left record rsp st) wp)
    as [(rs & Hout & Hn) | (pre & t & post & rs & r & Hts & Hn & Hn' & Hs & Hc & Hout)].
  - left. exists (rsp ++ rs). split.
    + by rewrite Hout, fold_left_record_app.
    + by rewrite !map_app, Hnp, Hn.
  - right. exists pre, t, post, (rsp ++ rs), r. repeat split; try done.
    + by rewrite !map_app, Hnp, Hn.
    + rewrite Hout, allResults_recorded. by rewrite <- !app_assoc.
Qed.

Lemma round_none_ready ctx st w :
  readyTasks st = [] ->
  round ctx st w =
  (Return (allResults st)
          (if (size (executed st) <? length (tasksOf st))%nat
           then Some (deadlockError (unexecuted st)) else None), w).
Proof.
  intros Hready. unfold round. rewrite Hready.
  by destruct (size (executed st) <? length (tasksOf st))%nat.
Qed.

(** ** [Run] returns *)

Lemma filter_length_le {A} (p q : A -> bool) (l : list A) :
  (forall x, In x l -> q x = true -> p x = true) ->
  (length (List.filter q l) <= length (List.filter p l))%nat.
Proof.
  induction l as [|x l IH]; intros Hqp; [done|]. cbn.
  assert (IH' := IH (fun y Hy => Hqp y (or_intror Hy))).
  pose proof (Hqp x (or_introl eq_refl)) as Hx.
  destruct (q x), (p x); cbn; try lia; by specialize (Hx eq_refl).
Qed.

Lemma filter_length_lt {A} (p q : A -> bool) (l : list A) :
  (forall x, In x l -> q x = true -> p x = true) ->
  (exists x, In x l /\ p x = true /\ q x = false) ->
  (length (List.filter q l) < length (List.filter p l))%nat.
Proof.
  induction l as [|x l IH]; intros Hqp (y & Hy & Hpy & Hqy); [done|]. cbn.
  assert (Hle := filter_length_le p q l (fun z Hz => Hqp z (or_intror Hz))).
  pose proof (Hqp x (or_introl eq_refl)) as Hx.
  destruct Hy as [->|Hy].
  - rewrite Hpy, Hqy. cbn. lia.
  - assert (IH' := IH (fun z Hz => Hqp z (or_intror Hz))
                      (ex_intro _ y (conj Hy (conj Hpy Hqy)))).
    destruct (q x), (p x); cbn; try lia; by specialize (Hx eq_refl).
Qed.

Lemma In_readyTasks st t :
  In t (readyTasks st) <->
  In t (tasksOf st) /\ isExecuted (executed st) (Name t) = false /\
  dependenciesMet (engine st) t (executed st) = true.
Proof.
  unfold readyTasks. rewrite filter_In, andb_true_iff, negb_true_iff. tauto.
Qed.

Lemma In_groups ready t :
  In t (parallelTasks ready ++ sequentialTasks ready) <-> In t ready.
Proof.
  unfold parallelTasks, sequentialTasks.
  rewrite in_app_iff, !filter_In, negb_true_iff.
  destruct (Parallel t); intuition congruence.
Qed.

Lemma remaining_alt st :
  remaining st =
  length (List.filter (fun t => negb (isExecuted (executed st) (Name t))) (tasksOf st)).
Proof. unfold remaining, unexecuted. by rewrite length_map. Qed.

(** An iteration that goes on has executed a task that was not. *)
Lemma round_Continue ctx st w st' w' :
  round ctx st w = (Continue st', w') ->
  exists rs,
    st' = fold_left record rs st /\
    map TaskName rs = map Name (parallelTasks (readyTasks st) ++ sequentialTasks (readyTasks st)) /\
    readyTasks st <> [] /\
    (remaining st' < remaining st)%nat.
Proof.
  intros Hround.
  destruct (readyTasks st) as [|t0 ready0] eqn:Hready.
  { rewrite round_none_ready in Hround by done. discriminate. }
  assert (Hne : readyTasks st <> []) by (by rewrite Hready).
  destruct (round_spec ctx st w Hne) as [(rs & Hout & Hnames) | Hret].
  2: { destruct Hret as (? & ? & ? & ? & ? & _ & _ & _ & _ & _ & Hout).
       rewrite Hround in Hout. discriminate. }
  rewrite Hround in Hout. cbn in Hout. injection Hout as ->.
  rewrite Hready in Hnames. exists rs. split; [done|]. split; [done|]. split; [done|].
  rewrite !remaining_alt, tasksOf_recorded.
  apply filter_length_lt.
  - intros t _. rewrite !negb_true_iff. intros Hq.
    destruct (isExecuted (executed st) (Name t)) eqn:Hp; [|done].
    assert (isExecuted (executed (fold_left record rs st)) (Name t) = true)
      by (apply isExecuted_recorded; by left).
    congruence.
  - assert (Hin : In t0 (readyTasks st)) by (rewrite Hready; by left).
    apply In_readyTasks in Hin as (Ht & Hex & _).
    exists t0. split; [done|]. rewrite Hex. split; [done|].
    apply negb_false_iff, isExecuted_recorded. right.
    rewrite Hnames. apply in_map, In_groups. by left.
Qed.

(** With more fuel than tasks to execute, the loop returns, and what it
    returns does not depend on the fuel. *)
Lemma runLoop_returns ctx : forall fuel st w,
  (remaining st < fuel)%nat ->
  exists res w',
    forall fuel', (remaining st < fuel')%nat ->
                  runLoop fuel' ctx st w = (Some res, w').
Proof.
  induction fuel as [|fuel IH]; intros st w Hfuel; [lia|].
  destruct (size (executed st) <? length (tasksOf st))%nat eqn:Hcond.
  - destruct (round ctx st w) as [[rs err|st'] w1] eqn:Hround.
    + exists (rs, err), w1. intros [|fuel'] Hf; [lia|].
      cbn [runLoop]. rewrite Hcond. unfold bind. by rewrite Hround.
    + destruct (round_Continue ctx st w st' w1 Hround) as (_ & _ & _ & _ & Hlt).
      destruct (IH st' w1) as (res & w' & Hres); [lia|].
      exists res, w'. intros [|fuel'] Hf; [lia|].
      cbn [runLoop]. rewrite Hcond. unfold bind. rewrite Hround.
      apply Hres. lia.
  - exists (allResults st, None), w. intros [|fuel'] Hf; [lia|].
    cbn [runLoop]. by rewrite Hcond.
Qed.

Lemma remaining_initial e : (remaining (initialState e) <= length (Tasks (workflow_ e)))%nat.
Proof. rewrite remaining_alt. apply List.filter_length_le. Qed.

(** [Run] always returns: the fuel of the model is never used up. *)
Lemma Run_returns e ctx w :
  exists rs err w', Run e ctx w = (Some (rs, err), w').
Proof.
  destruct (runLoop_returns ctx (S (length (Tasks (workflow_ e)))) (initialState e) w)
    as ([rs err] & w' & Hres).
  { pose proof (remaining_initial e). lia. }
  exists rs, err, w'. apply Hres.
  pose proof (remaining_initial e). lia.
Qed.


Lemma Reaches_Replayed e ctx w0 st w :
  Reaches e ctx w0 st w -> Replayed e st.
Proof.
  induction 1 as [|st w st' w' Hreach IH Hcond Hround].
  - exists []. by split.
  - destruct IH as (rs & Hst & Hnames).
    destruct (round_Continue ctx st w st' w' Hround) as (rs' & -> & Hn' & _ & _).
    exists (rs ++ rs'). split.
    + by rewrite fold_left_record_app, <- Hst.
    + intros r [Hr|Hr]%in_app_iff; [by apply Hnames|].
      apply (in_map TaskName) in Hr. rewrite Hn' in Hr.
      apply in_map_iff in Hr as (t & <- & Ht). apply In_groups, In_readyTasks in Ht as (Ht & _).
      apply in_map. unfold tasksOf in Ht.
      by rewrite Hst, workflow_recorded in Ht.
Qed.

(** ** C2: deadlock *)

Lemma size_list_to_set_le (l : list string) :
  (size (list_to_set l : gset string) <= length l)%nat.
Proof.
  induction l as [|x l IH]; cbn [list_to_set length foldr].
  - by rewrite size_empty.
  - rewrite size_union_alt, size_singleton.
    assert (size (list_to_set l ∖ {[x]} : gset string) <= size (list_to_set l : gset string))%nat
      by (apply subseteq_size, subseteq_difference_l; done).
    lia.
Qed.

Lemma dom_executed_recorded rs : forall st,
  dom (executed (fold_left record rs st)) =
  list_to_set (map TaskName rs) ∪ dom (executed st).
Proof.
  induction rs as [|r rs IH]; intros st; cbn [fold_left map list_to_set].
  - by rewrite (left_id_L ∅ (∪)).
  - rewrite IH. cbn [record executed]. rewrite dom_insert_L.
    by rewrite (assoc_L (∪)), (comm_L (∪) (list_to_set _) {[_]}).
Qed.

Lemma isExecuted_initial e name : isExecuted (executed (initialState e)) name = false.
Proof. done. Qed.

Lemma Replayed_executed e st name :
  Replayed e st ->
  isExecuted (executed st) name = true -> In name (map Name (Tasks (workflow_ e))).
Proof.
  intros (rs & -> & Hnames) Hex.
  apply isExecuted_recorded in Hex as [Hex|Hex]; [done|].
  apply in_map_iff in Hex as (r & <- & Hr). by apply Hnames.
Qed.

Lemma Replayed_tasksOf e st : Replayed e st -> tasksOf st = Tasks (workflow_ e).
Proof. intros (rs & -> & _). by rewrite tasksOf_recorded. Qed.




(** ** C3: a failing sequential task *)


Lemma round_ready ctx st w :
  readyTasks st <> [] ->
  round ctx st w =
  (let (stp, wp) := runParallel ctx (parallelTasks (readyTasks st)) st w in
   runSequential ctx (sequentialTasks (readyTasks st)) stp wp).
Proof.
  intros Hne. unfold round, bind. by destruct (readyTasks st).
Qed.




(** ** C7: workflows without dependencies *)


Lemma groups_Permutation (ready : list Task) :
  parallelTasks ready ++ sequentialTasks ready ≡ₚ ready.
Proof.
  unfold parallelTasks, sequentialTasks.
  induction ready as [|t ready IH]; [done|]. cbn.
  destruct (Parallel t); cbn.
  - by apply perm_skip.
  - rewrite <- Permutation_middle. by apply perm_skip.
Qed.






(** ** C5: dependencies come first *)

Lemma NoDup_map_injective {A B} (f : A -> B) (l : list A) x y :
  NoDup (map f l) -> In x l -> In y l -> f x = f y -> x = y.
Proof.
  induction l as [|z l IH]; [done|]. cbn.
  intros Hnd [->|Hx] [->|Hy] Hf; [done| | |].
  - apply NoDup_cons in Hnd as [Hz _]. exfalso. apply Hz.
    rewrite Hf. apply list_elem_of_In. by apply in_map.
  - apply NoDup_cons in Hnd as [Hz _]. exfalso. apply Hz.
    rewrite <- Hf. apply list_elem_of_In. by apply in_map.
  - apply NoDup_cons in Hnd as [_ Hnd]. by apply IH.
Qed.

Lemma results_recorded_other rs : forall st name,
  ~ In name (map TaskName rs) ->
  results (engine (fold_left record rs st)) !! name = results (engine st) !! name.
Proof.
  induction rs as [|r rs IH]; intros st name Hnot; [done|].
  cbn [fold_left]. rewrite IH, results_record.
  - destruct (decide (TaskName r = name)) as [Heq|]; [|done].
    exfalso. apply Hnot. by left.
  - intros Hin. apply Hnot. by right.
Qed.

(** With one result per name, the store holds every recorded result. *)
Lemma results_recorded rs : forall st r,
  NoDup (map TaskName rs) -> In r rs ->
  results (engine (fold_left record rs st)) !! TaskName r = Some r.
Proof.
  induction rs as [|x rs IH]; intros st r Hnd Hin; [done|].
  cbn [map] in Hnd. apply NoDup_cons in Hnd as [Hx Hnd].
  cbn [fold_left]. destruct Hin as [->|Hin].
  - rewrite results_recorded_other.
    + rewrite results_record. by destruct (decide (TaskName r = TaskName r)).
    + intros Hin. apply Hx. by apply list_elem_of_In.
  - by apply IH.
Qed.

Lemma Good_initial e : Good e (initialState e).
Proof.
  split; cbn; [done | constructor | done |].
  intros before r after task Heq. by destruct before.
Qed.

Lemma Good_executed e st name :
  Good e st ->
  isExecuted (executed st) name = true <-> In name (map TaskName (allResults st)).
Proof.
  intros Hgood. rewrite (good_replay e st Hgood) at 1.
  rewrite isExecuted_recorded, isExecuted_initial. intuition discriminate.
Qed.

Lemma Good_tasksOf e st : Good e st -> tasksOf st = Tasks (workflow_ e).
Proof. intros Hgood. rewrite (good_replay e st Hgood). by rewrite tasksOf_recorded. Qed.

(** A ready task has a successful result for each of its dependencies. *)
Lemma ready_depsSucceeded e st t :
  Good e st -> In t (readyTasks st) -> depsSucceeded (allResults st) t.
Proof.
  intros Hgood (_ & _ & Hmet)%In_readyTasks dep Hdep.
  unfold dependenciesMet in Hmet.
  apply depsMet_Forall in Hmet.
  pose proof (proj1 (List.Forall_forall _ _) Hmet dep Hdep) as [Hex Hok].
  apply (Good_executed e st dep Hgood), in_map_iff in Hex as (r & Hname & Hr).
  exists r. split; [done|]. split; [done|].
  apply Hok. rewrite <- Hname, (good_replay e st Hgood).
  apply results_recorded; [apply (good_nodup e st Hgood) | done].
Qed.

Lemma depsSucceeded_more rs rs' t :
  depsSucceeded rs t -> depsSucceeded (rs ++ rs') t.
Proof.
  intros H dep Hdep. destruct (H dep Hdep) as (r & Hr & Hrest).
  exists r. split; [|done]. apply in_app_iff. by left.
Qed.

Lemma app_singleton_split {A} (l before after : list A) (x r : A) :
  l ++ [r] = before ++ x :: after ->
  (after = [] /\ x = r /\ before = l) \/
  (exists after', after = after' ++ [r] /\ l = before ++ x :: after').
Proof.
  revert l. induction before as [|y before IH]; intros l Heq.
  - destruct l as [|z l]; cbn in Heq.
    + injection Heq as <- <-. by left.
    + injection Heq as <- <-. right. by exists l.
  - destruct l as [|z l]; cbn in Heq.
    + injection Heq as _ Heq. by destruct before.
    + injection Heq as <- Heq. destruct (IH l Heq) as [(-> & -> & ->) | (after' & -> & ->)].
      * by left.
      * right. by exists after'.
Qed.

(** Recording the result of the first pending task keeps the invariant,
    and keeps the other tasks pending. *)
Lemma Good_record e st t ts r :
  NoDup (map Name (Tasks (workflow_ e))) ->
  Good e st -> Pending e st (t :: ts) -> TaskName r = Name t ->
  Good e (record st r) /\ Pending e (record st r) ts.
Proof.
  intros Huniq Hgood [Hnd Hin Hfresh Hdeps] Hname.
  cbn [map] in Hnd. apply NoDup_cons in Hnd as [Ht Hnd].
  split; split.
  - cbn [record allResults]. rewrite fold_left_record_app. cbn.
    by rewrite <- (good_replay e st Hgood).
  - cbn [record allResults]. rewrite map_app. cbn.
    apply NoDup_app. split; [apply (good_nodup e st Hgood)|]. split.
    + intros name Hname1 ->%list_elem_of_singleton.
      apply (Hfresh t); [by left|]. rewrite <- Hname. by apply list_elem_of_In.
    + apply NoDup_singleton.
  - cbn [record allResults]. intros r' [Hr'|[<-|[]]]%in_app_iff.
    + by apply (good_names e st Hgood).
    + rewrite Hname. apply in_map, Hin. by left.
  - cbn [record allResults]. intros before x after task Heq Htask Hx.
    apply app_singleton_split in Heq as [(-> & -> & ->) | (after' & -> & Heq)].
    + assert (task = t) as ->.
      { apply (NoDup_map_injective Name (Tasks (workflow_ e))); try done.
        - apply Hin. by left.
        - by rewrite Hx. }
      apply Hdeps. by left.
    + by apply (good_order e st Hgood before x after' task).
  - done.
  - intros t' Ht'. apply Hin. by right.
  - cbn [record allResults]. rewrite map_app. cbn.
    intros t' Ht' [Hold|[Hnew|[]]]%in_app_iff.
    + apply (Hfresh t'); [by right | done].
    + apply Ht. rewrite <- Hname, Hnew. apply list_elem_of_In. by apply in_map.
  - intros t' Ht'. cbn [record allResults]. apply depsSucceeded_more, Hdeps. by right.
Qed.

Lemma Good_recorded e rs : forall st ts,
  NoDup (map Name (Tasks (workflow_ e))) ->
  Good e st -> Pending e st ts -> map TaskName rs = map Name ts ->
  Good e (fold_left record rs st).
Proof.
  induction rs as [|r rs IH]; intros st ts Huniq Hgood Hpend Hnames; [done|].
  destruct ts as [|t ts]; [done|]. cbn in Hnames. injection Hnames as Hn Hnames.
  destruct (Good_record e st t ts r Huniq Hgood Hpend Hn) as [Hgood' Hpend'].
  cbn [fold_left]. by apply (IH _ ts).
Qed.

Lemma Pending_prefix e st ts1 ts2 : Pending e st (ts1 ++ ts2) -> Pending e st ts1.
Proof.
  intros [Hnd Hin Hfresh Hdeps]. split.
  - rewrite map_app in Hnd. by apply NoDup_app in Hnd as [? _].
  - intros t Ht. apply Hin, in_app_iff. by left.
  - intros t Ht. apply Hfresh, in_app_iff. by left.
  - intros t Ht. apply Hdeps, in_app_iff. by left.
Qed.

Lemma NoDup_map_filter {A B} (f : A -> B) (p : A -> bool) (l : list A) :
  NoDup (map f l) -> NoDup (map f (List.filter p l)).
Proof.
  induction l as [|x l IH]; [done|]. cbn.
  intros [Hx Hnd]%NoDup_cons. destruct (p x); cbn; [|by apply IH].
  apply NoDup_cons. split; [|by apply IH].
  intros Hin. apply Hx.
  apply list_elem_of_In, in_map_iff in Hin as (y & <- & Hy).
  apply list_elem_of_In, in_map. by apply filter_In in Hy as [? _].
Qed.

(** The ready tasks, in the order the iteration takes them, are pending. *)
Lemma ready_Pending e st :
  NoDup (map Name (Tasks (workflow_ e))) -> Good e st ->
  Pending e st (parallelTasks (readyTasks st) ++ sequentialTasks (readyTasks st)).
Proof.
  intros Huniq Hgood. split.
  - rewrite (groups_Permutation (readyTasks st)).
    unfold readyTasks. rewrite (Good_tasksOf e st Hgood). by apply NoDup_map_filter.
  - intros t Ht%In_groups%In_readyTasks. rewrite <- (Good_tasksOf e st Hgood). tauto.
  - intros t (_ & Hex & _)%In_groups%In_readyTasks Hin.
    apply (Good_executed e st _ Hgood) in Hin. congruence.
  - intros t Ht. apply (proj1 (In_groups _ _)) in Ht.
    exact (ready_depsSucceeded e st t Hgood Ht).
Qed.

Lemma round_Good e ctx st w step w' :
  NoDup (map Name (Tasks (workflow_ e))) -> Good e st ->
  round ctx st w = (step, w') ->
  exists st', Good e st' /\
              match step with
              | Continue s => s = st'
              | Return rs _ => rs = allResults st'
              end.
Proof.
  intros Huniq Hgood Hround.
  destruct (readyTasks st) as [|t0 ready0] eqn:Hready.
  { rewrite round_none_ready in Hround by done. injection Hround as <- _.
    by exists st. }
  assert (Hne : readyTasks st <> []) by (by rewrite Hready).
  pose proof (ready_Pending e st Huniq Hgood) as Hpend.
  pose proof (round_spec ctx st w Hne) as Hspec. cbn zeta in Hspec.
  rewrite Hround in Hspec. cbn [fst] in Hspec.
  destruct Hspec as [(rs & -> & Hnames)
                    | (pre & t & post & rs & r & Hseq & Hnames & Hn & Hs & Hc & ->)].
  - exists (fold_left record rs st). split; [|done].
    by apply (Good_recorded e rs st _ Huniq Hgood Hpend).
  - exists (fold_left record (rs ++ [r]) st). split.
    + apply (Good_recorded e (rs ++ [r]) st
               (parallelTasks (readyTasks st) ++ pre ++ [t]) Huniq Hgood).
      * apply (Pending_prefix e st _ post).
        rewrite Hseq in Hpend. by rewrite <- !app_assoc.
      * rewrite (map_app TaskName), Hnames, app_assoc, (map_app Name _ [t]). cbn.
        by rewrite Hn.
    + by rewrite allResults_recorded.
Qed.

(** What [Run] returns is the list of results of a state that satisfies
    the invariant. *)
Lemma runLoop_Good e ctx : forall fuel st w rs err w',
  NoDup (map Name (Tasks (workflow_ e))) -> Good e st ->
  runLoop fuel ctx st w = (Some (rs, err), w') ->
  exists st', Good e st' /\ rs = allResults st'.
Proof.
  induction fuel as [|fuel IH]; intros st w rs err w' Huniq Hgood Hrun; [done|].
  cbn [runLoop] in Hrun.
  destruct (size (executed st) <? length (tasksOf st))%nat.
  - unfold bind in Hrun. destruct (round ctx st w) as [step w1] eqn:Hround.
    destruct (round_Good e ctx st w step w1 Huniq Hgood Hround) as (st' & Hgood' & Hstep).
    destruct step as [rs' err'|s].
    + injection Hrun as <- _ _. by exists st'.
    + subst s. by apply (IH st' w1 rs err w').
  - injection Hrun as <- _ _. by exists st.
Qed.




(** Why the names must be unique: the engine knows a task by its name
    only. When two tasks are called [build], the result of the second
    replaces the result of the first in the store; if the first failed
    (with [continueOnError]) and the second succeeded, [test] runs. The
    count of executed names then stays below the count of tasks, and [Run]
    ends with the deadlock error over an empty list of stuck tasks. *)
Lemma duplicate_names_share_a_result :
  exists r1 r2 r3 w',
    Run (NewEngine twiceNamedWorkflow) Background echoWorld
      = (Some ([r1; r2; r3], Some (deadlockError [])), w') /\
    map TaskName [r1; r2; r3] = ["build"; "build"; "test"] /\
    map Success [r1; r2; r3] = [false; true; true].
Proof. vm_compute. do 4 eexists. repeat split; reflexivity. Qed.

(** ** C1: variable resolution *)

Lemma fold_substitute_absent (order : list (string * string)) (field : string) :
  (forall kv, In kv order -> strings.Contains field (executor.placeholder kv.1) = false) ->
  fold_left executor.substitute order field = field.
Proof.
  induction order as [|kv order IH]; intros Habsent; [done|].
  cbn [fold_left]. unfold executor.substitute at 2.
  rewrite ReplaceAll_absent.
  - apply IH. intros kv' Hkv'. apply Habsent. by right.
  - apply placeholder_nonempty.
  - apply Habsent. by left.
Qed.

Lemma fold_substituteOutput_absent (outs : list (string * TaskResult)) (field : string) :
  (forall nr, In nr outs -> Success nr.2 = true ->
              strings.Contains field ("${" +:+ nr.1 +:+ ".output}") = false) ->
  fold_left substituteOutput outs field = field.
Proof.
  induction outs as [|nr outs IH]; intros Habsent; [done|].
  cbn [fold_left]. unfold substituteOutput at 2.
  destruct (Success nr.2) eqn:Hs.
  - rewrite ReplaceAll_absent; [|done|by apply Habsent; [left|]].
    apply IH. intros nr' Hnr'. apply Habsent. by right.
  - apply IH. intros nr' Hnr'. apply Habsent. by right.
Qed.

(** Placeholders that name no workflow variable are left as they are by
    the executor's resolver. *)
Lemma ResolvedBy_verbatim vars field text :
  ResolvedBy vars field text ->
  (forall key value, vars !! key = Some value ->
                     strings.Contains field (executor.placeholder key) = false) ->
  text = field.
Proof.
  intros (order & Hperm & ->) Habsent.
  apply fold_substitute_absent. intros [key value] Hin. cbn.
  apply (Habsent key value), elem_of_map_to_list.
  rewrite <- Hperm. by apply list_elem_of_In.
Qed.

Lemma ResolvedByEngine_verbatim e field text :
  ResolvedByEngine e field text ->
  (forall key value, Variables (workflow_ e) !! key = Some value ->
                     strings.Contains field (executor.placeholder key) = false) ->
  (forall name r, results e !! name = Some r -> Success r = true ->
                  strings.Contains field ("${" +:+ name +:+ ".output}") = false) ->
  text = field.
Proof.
  intros (vars & outs & Hvars & Houts & ->) Hv Ho.
  rewrite (fold_substitute_absent vars field).
  - apply fold_substituteOutput_absent. intros [name r] Hin Hs. cbn in *.
    apply (Ho name r); [|done]. apply elem_of_map_to_list.
    rewrite <- Houts. by apply list_elem_of_In.
  - intros [key value] Hin. cbn.
    apply (Hv key value), elem_of_map_to_list.
    rewrite <- Hvars. by apply list_elem_of_In.
Qed.

Lemma Permutation_singleton_eq {A} (l : list A) (x : A) : l ≡ₚ [x] -> l = [x].
Proof. intros H. symmetry in H. by apply Permutation_singleton_l in H. Qed.

(** With one workflow variable, the executor's resolver is one
    [ReplaceAll]. *)
Lemma ResolvedBy_one key value field text :
  ResolvedBy {[key := value]} field text ->
  text = strings.ReplaceAll field (executor.placeholder key) value.
Proof.
  intros (order & Hperm & ->).
  rewrite map_to_list_singleton in Hperm.
  by rewrite (Permutation_singleton_eq _ _ Hperm).
Qed.

(** C1, as the code has it. Every text that [executeTask] (through
    [Execute]) hands to a backend for a task (the command line, the URL,
    the body, a header value, a file path, a file content, the source and
    destination paths) is the task's field after the executor's resolver,
    which makes one [ReplaceAll] of [${key}] per workflow variable and
    nothing else: outputs of tasks are not substituted there. The
    condition text goes through the engine's resolver, which replaces the
    workflow variables and then [${taskName.output}] for every task
    recorded as successful. Both leave a text unchanged when no placeholder
    they know occurs in it. With [greet] recorded as a success with output
    [hi], the engine's resolver turns [${greet.output}] into [hi], and the
    condition [${greet.output} == hi] holds. *)
Theorem C1_fields_and_conditions_are_resolved :
  (forall e ctx task w,
      exists evs, history (executeTask e ctx task w).2 = history w ++ evs /\
                  Forall (resolvedEvent (executor_ e) task) evs) /\
  (forall wf, executor.variables (executor_ (NewEngine wf)) = Variables wf) /\
  (forall e condition w,
      exists text, ResolvedByEngine e condition text /\
                   (evaluateCondition e condition w).1 = evaluateResolved text) /\
  (forall vars field text,
      ResolvedBy vars field text ->
      (forall key value, vars !! key = Some value ->
                         strings.Contains field (executor.placeholder key) = false) ->
      text = field) /\
  (forall e field text,
      ResolvedByEngine e field text ->
      (forall key value, Variables (workflow_ e) !! key = Some value ->
                         strings.Contains field (executor.placeholder key) = false) ->
      (forall name r, results e !! name = Some r -> Success r = true ->
                      strings.Contains field ("${" +:+ name +:+ ".output}") = false) ->
      text = field) /\
  (forall key value field text,
      ResolvedBy {[key := value]} field text ->
      text = strings.ReplaceAll field (executor.placeholder key) value) /\
  (forall w, (replaceVariables greetedEngine "echo got ${greet.output}" w).1
             = "echo got hi") /\
  (forall w, (evaluateCondition greetedEngine "${greet.output} == hi" w).1 = true).
Proof.
  split; [|split; [|split; [|split; [|split; [|split; [|split]]]]]].
  - intros e ctx task w.
    by destruct (executeTask_guarantees e ctx task w) as (_ & _ & Hevs).
  - done.
  - intros e condition w.
    destruct (evaluateCondition_guarantees e condition (fun _ => True) (fun _ => I) w)
      as ((text & Htext & Heq) & _).
    by exists text.
  - apply ResolvedBy_verbatim.
  - apply ResolvedByEngine_verbatim.
  - apply ResolvedBy_one.
  - intros w. vm_compute. reflexivity.
  - intros w. vm_compute. reflexivity.
Qed.

Lemma C1_witness :
  "5 and ${y}" = strings.ReplaceAll "${x} and ${y}" (executor.placeholder "x") "5".
Proof.
  refine (proj1 (proj2 (proj2 (proj2 (proj2 (proj2
            C1_fields_and_conditions_are_resolved)))))
            "x" "5" "${x} and ${y}" "5 and ${y}" _).
  exists [("x", "5")]. split.
  - rewrite map_to_list_singleton. reflexivity.
  - reflexivity.
Defined.

(** C1 as the specification words it fails on a command: [greet] succeeds
    with output [hi], and [report], which depends on it, has the command
    [echo got ${greet.output}]; the shell is run with that very text, the
    placeholder still in it, and [report]'s output shows it. *)
Lemma C1_counterexample :
  exists rg rr w',
    Run (NewEngine reportWorkflow) Background echoWorld = (Some ([rg; rr], None), w') /\
    TaskName rg = "greet" /\ Success rg = true /\ Output rg = "hi" /\
    TaskName rr = "report" /\ Output rr = "got ${greet.output}" /\
    commands (history w') = ["echo hi"; "echo got ${greet.output}"] /\
    ~ In "echo got hi" (commands (history w')).
Proof.
  vm_compute. do 3 eexists. split; [reflexivity|].
  repeat split; try reflexivity.
  intros [H|[H|[]]]; discriminate.
Qed.

(** * Further properties of the code *)

(** ** The executor's error paths *)

(** X1. A task whose type is none of shell, http and file fails in the
    dispatcher itself: the error is "unknown task type: T", the output is
    empty, and nothing is called but the clock, read twice: no variable
    is resolved and no backend is reached. *)
Theorem X1_unknown_task_type ex ctx task w :
  Type_ task <> "shell" -> Type_ task <> "http" -> Type_ task <> "file" ->
  let out := executor.Execute ex ctx task w in
  out.1.2 = Some ("unknown task type: " +:+ Type_ task) /\
  TaskName out.1.1 = Name task /\ Success out.1.1 = false /\
  Error out.1.1 = out.1.2 /\ Output out.1.1 = EmptyString /\
  oracle out.2 = oracle w /\ history out.2 = history w ++ [EvNow; EvNow].
Proof.
  intros Hs Hh Hf out. subst out. unfold executor.Execute, bind.
  apply String.eqb_neq in Hs, Hh, Hf. rewrite Hs, Hh, Hf.
  cbn. by rewrite <- app_assoc.
Qed.

Lemma X1_witness :
  (executor.Execute (executor.NewExecutor ∅) Background
     (plainTask "deploy" "docker" "run" []) echoWorld).1.2
  = Some "unknown task type: docker".
Proof.
  refine (proj1 (X1_unknown_task_type (executor.NewExecutor ∅) Background
                   (plainTask "deploy" "docker" "run" []) echoWorld _ _ _));
    discriminate.
Defined.

(** X2. A file task whose action is none of read, write, delete and copy
    fails with "unknown file action: A" and an empty output, without
    resolving a path and without touching the file system. *)
Theorem X2_unknown_file_action ex ctx task w :
  Type_ task = "file" ->
  FileAction task <> "read" -> FileAction task <> "write" ->
  FileAction task <> "delete" -> FileAction task <> "copy" ->
  let out := executor.Execute ex ctx task w in
  out.1.2 = Some ("unknown file action: " +:+ FileAction task) /\
  Success out.1.1 = false /\ Error out.1.1 = out.1.2 /\
  Output out.1.1 = EmptyString /\
  oracle out.2 = oracle w /\ history out.2 = history w ++ [EvNow; EvNow].
Proof.
  intros Ht Hr Hw Hd Hc out. subst out.
  unfold executor.Execute, executor.executeFile, bind.
  apply String.eqb_neq in Hr, Hw, Hd, Hc. rewrite Ht, Hr, Hw, Hd, Hc.
  cbn. by rewrite <- app_assoc.
Qed.

Lemma X2_witness :
  (executor.Execute (executor.NewExecutor ∅) Background
     (fileTask "archive" "move" "a.txt" "b.txt") echoWorld).1.2
  = Some "unknown file action: move".
Proof.
  refine (proj1 (X2_unknown_file_action (executor.NewExecutor ∅) Background
                   (fileTask "archive" "move" "a.txt" "b.txt") echoWorld _ _ _ _ _));
    [reflexivity | discriminate..].
Defined.

(** X3. The [command] of a task is read in one place only: by the shell
    backend, when the [script] is empty. For a shell task with a script,
    and for every task of another type, the dispatcher does the same
    whatever the command says. *)
Theorem X3_script_overrides_command ex ctx task command w :
  Script task <> EmptyString \/ Type_ task <> "shell" ->
  executor.Execute ex ctx (withCommand command task) w
  = executor.Execute ex ctx task w.
Proof.
  intros Hcase. unfold executor.Execute. cbn [withCommand Type_ Name].
  destruct (String.eqb_spec (Type_ task) "shell") as [Hshell|Hother].
  - destruct Hcase as [Hscript|?]; [|done].
    apply String.eqb_neq in Hscript.
    unfold executor.executeShell. cbn [withCommand Script Command].
    by rewrite Hscript.
  - reflexivity.
Qed.

Lemma X3_witness :
  executor.Execute (executor.NewExecutor ∅) Background
    (withCommand "echo ignored" (httpTask "ping" "http://localhost")) echoWorld
  = executor.Execute (executor.NewExecutor ∅) Background
    (httpTask "ping" "http://localhost") echoWorld.
Proof.
  refine (X3_script_overrides_command (executor.NewExecutor ∅) Background
            (httpTask "ping" "http://localhost") "echo ignored" echoWorld _).
  right. discriminate.
Defined.

(** ** The HTTP backend *)

Lemma replaceVariables_run ex input w :
  executor.replaceVariables ex input w =
  (fold_left executor.substitute
     (arrange (length (map_to_list (executor.variables ex)))
              (o_order (oracle w)
                 (history w ++ [EvRange (map_to_list (executor.variables ex)).*1]))
              (map_to_list (executor.variables ex))) input,
   mkWorld (oracle w)
           (history w ++ [EvRange (map_to_list (executor.variables ex)).*1])).
Proof. reflexivity. Qed.

Lemma replaceVariables_world ex input w :
  oracle (executor.replaceVariables ex input w).2 = oracle w /\
  history (executor.replaceVariables ex input w).2 =
  history w ++ [EvRange (map_to_list (executor.variables ex)).*1].
Proof. by rewrite replaceVariables_run. Qed.

(** The request's body: none for an empty [body], else the resolved one. *)
Lemma body_step ex task w :
  let c := (if String.eqb (Body task) EmptyString
            then ret None
            else b <- executor.replaceVariables ex (Body task) ;; ret (Some b))
           : M (option string) in
  oracle (c w).2 = oracle w /\
  (Body task = EmptyString -> c w = (None, w)) /\
  exists pre, history (c w).2 = history w ++ pre /\ Forall (fun ev => isRange ev = true) pre.
Proof.
  cbn zeta. destruct (String.eqb_spec (Body task) EmptyString) as [Hb|Hb].
  - split; [done|]. split; [done|]. exists []. by rewrite app_nil_r.
  - unfold bind. rewrite replaceVariables_run. cbn.
    split; [done|]. split; [done|]. eexists. split; [done|]. by repeat constructor.
Qed.

(** X4. When the request cannot be built (an invalid method or URL), the
    HTTP backend stops there: the error is "failed to create request: E",
    the output is empty, no header is set and nothing is sent. The request
    it tried to build has the method GET when the task gives none, and no
    body when the task's body is empty. *)
Theorem X4_request_not_created ex ctx task w err :
  (forall h, o_new_request (oracle w) h = Some err) ->
  let out := executor.executeHTTP ex ctx task w in
  out.1 = (EmptyString, Some ("failed to create request: " +:+ err)) /\
  exists pre url body,
    history out.2 =
      history w ++ pre ++
      [EvNewRequest ctx (if String.eqb (Method task) EmptyString
                         then "GET" else Method task) url body] /\
    Forall (fun ev => isRange ev = true) pre /\
    ResolvedBy (executor.variables ex) (URL task) url /\
    (Body task = EmptyString -> body = None).
Proof.
  intros Hnew out. subst out.
  destruct (executor.executeHTTP ex ctx task w) as [res w'] eqn:Hrun. cbn [fst snd].
  unfold executor.executeHTTP in Hrun.
  unfold bind at 1 in Hrun. rewrite replaceVariables_run in Hrun.
  set (w1 := mkWorld _ _) in Hrun. set (url := fold_left _ _ _) in Hrun.
  unfold bind at 1 in Hrun.
  destruct (body_step ex task w1) as (Ho & Hnone & pre & Hh & Hpre). cbn zeta in *.
  destruct ((if String.eqb (Body task) EmptyString then ret None
             else b <- executor.replaceVariables ex (Body task) ;; ret (Some b)) w1)
    as [body w2] eqn:Hbody.
  cbn [fst snd] in *. unfold bind at 1 in Hrun. cbn [call fst snd] in Hrun.
  rewrite Ho in Hrun. subst w1. cbn [oracle] in Hrun. rewrite Hnew in Hrun.
  cbn [ret] in Hrun. injection Hrun as <- <-.
  split; [done|].
  exists (EvRange (map_to_list (executor.variables ex)).*1 :: pre), url, body.
  split; [|split; [|split]].
  - cbn [history] in *. rewrite Hh. by rewrite <- !app_assoc.
  - by constructor.
  - destruct (Executor_replaceVariables_guarantees ex (URL task) (fun _ => True)
                (fun _ => I) w) as (Hq & _).
    by rewrite replaceVariables_run in Hq.
  - intros Hb. specialize (Hnone Hb). congruence.
Qed.

Lemma X4_witness :
  (executor.executeHTTP (executor.NewExecutor ∅) Background
     (httpTask "ping" "http://localhost") (mkWorld brokenOracle [])).1
  = (EmptyString, Some "failed to create request: invalid method").
Proof.
  refine (proj1 (X4_request_not_created (executor.NewExecutor ∅) Background
                   (httpTask "ping" "http://localhost") (mkWorld brokenOracle [])
                   "invalid method" _)).
  intros h. reflexivity.
Defined.




(** ** The file backend *)

(** X6. A copy reads before it writes. When the source cannot be read, the
    copy fails with "failed to read source file: E" and nothing is written:
    the only calls are the two resolutions and the read. When it is read
    and the write succeeds, exactly the data read is written, once, to the
    resolved destination, and the output names both resolved paths. *)
Theorem X6_copy_reads_before_writing ex task w :
  let keys := (map_to_list (executor.variables ex)).*1 in
  let out := executor.fileCopy ex task w in
  (forall err,
      (forall h, o_read_file (oracle w) h = inl err) ->
      out.1 = (EmptyString, Some ("failed to read source file: " +:+ err)) /\
      fileWrites (history out.2) = fileWrites (history w) /\
      exists src, history out.2 =
                  history w ++ [EvRange keys; EvRange keys; EvReadFile src]) /\
  (forall data,
      (forall h, o_read_file (oracle w) h = inr data) ->
      (forall h, o_write_file (oracle w) h = None) ->
      exists src dst,
        ResolvedBy (executor.variables ex) (SourcePath task) src /\
        ResolvedBy (executor.variables ex) (DestPath task) dst /\
        out.1 = ("Successfully copied " +:+ src +:+ " to " +:+ dst, None) /\
        history out.2 =
          history w ++ [EvRange keys; EvRange keys; EvReadFile src;
                        EvWriteFile dst data]).
Proof.
  intros keys out. subst out. split.
  - intros err Hread.
    unfold executor.fileCopy, bind. rewrite !replaceVariables_run.
    cbn [call fst snd oracle history]. rewrite Hread. cbn [ret fst snd history].
    split; [done|]. split.
    + unfold fileWrites. rewrite <- !app_assoc, List.filter_app. cbn.
      by rewrite app_nil_r.
    + eexists. by rewrite <- !app_assoc.
  - intros data Hread Hwrite.
    unfold executor.fileCopy, bind. rewrite !replaceVariables_run.
    cbn [call fst snd oracle history]. rewrite Hread.
    cbn [call fst snd oracle history]. rewrite Hwrite. cbn [ret fst snd history].
    eexists _, _. split; [|split; [|split; [reflexivity|]]].
    + destruct (Executor_replaceVariables_guarantees ex (SourcePath task)
                  (fun _ => True) (fun _ => I) w) as (Hq & _).
      by rewrite replaceVariables_run in Hq.
    + destruct (Executor_replaceVariables_guarantees ex (DestPath task)
                  (fun _ => True) (fun _ => I)
                  (executor.replaceVariables ex (SourcePath task) w).2) as (Hq & _).
      by rewrite !replaceVariables_run in Hq.
    + by rewrite <- !app_assoc.
Qed.

Lemma X6_witness :
  (executor.fileCopy (executor.NewExecutor ∅)
     (fileTask "backup" "copy" "a.txt" "b.txt") (mkWorld brokenOracle [])).1
  = (EmptyString, Some "failed to read source file: no such file or directory").
Proof.
  refine (proj1 (proj1 (X6_copy_reads_before_writing (executor.NewExecutor ∅)
                          (fileTask "backup" "copy" "a.txt" "b.txt")
                          (mkWorld brokenOracle []))
                   "no such file or directory" _)).
  intros h. reflexivity.
Defined.

(** ** One task: context, sleeps and messages *)

Ltac executor_steps :=
  repeat first
    [ apply guarantees_ret; exact I
    | apply guarantees_call; [ cbn; done | done ]
    | apply guarantees_if
    | (eapply guarantees_bind with (Q1 := fun _ => True); [ | intros ? _ ])
    | match goal with
      | |- guarantees (match ?x with _ => _ end) _ _ => destruct x
      end ].

Lemma bind_eq {A B} (c : M A) (k : A -> M B) (w : World) :
  bind c k w = k (c w).1 (c w).2.
Proof. unfold bind. by destruct (c w). Qed.

Lemma Executor_replaceVariables_backend ex input ctx :
  guarantees (executor.replaceVariables ex input) (fun _ => True) (backendEvent ctx).
Proof. unfold executor.replaceVariables. executor_steps. Qed.

(** The [switch] of [Execute]: the backends pass the context they are
    given to every process and request, and neither sleep, print nor read
    the clock. *)
Lemma dispatch_backend ex ctx task :
  guarantees
    (if String.eqb (Type_ task) "shell" then executor.executeShell ex ctx task
     else if String.eqb (Type_ task) "http" then executor.executeHTTP ex ctx task
     else if String.eqb (Type_ task) "file" then executor.executeFile ex ctx task
     else ret (EmptyString, Some ("unknown task type: " +:+ Type_ task)))
    (fun _ => True) (backendEvent ctx).
Proof.
  apply guarantees_if; [|apply guarantees_if; [|apply guarantees_if]].
  - unfold executor.executeShell.
    eapply guarantees_bind; [apply Executor_replaceVariables_backend|]. intros command _.
    executor_steps.
  - unfold executor.executeHTTP.
    eapply guarantees_bind; [apply Executor_replaceVariables_backend|]. intros url _.
    eapply guarantees_bind with (Q1 := fun _ => True).
    { apply guarantees_if; [by apply guarantees_ret|].
      eapply guarantees_bind; [apply Executor_replaceVariables_backend|]. intros b _.
      by apply guarantees_ret. }
    intros body _.
    eapply guarantees_bind with (Q1 := fun _ => True);
      [apply guarantees_call; done|]. intros created _.
    destruct created; [by apply guarantees_ret|].
    eapply guarantees_bind with (Q1 := fun _ => True).
    { unfold rangeMap. executor_steps. }
    intros headers _.
    eapply guarantees_bind with (Q1 := fun _ => True).
    { apply guarantees_forEach; [|done]. intros [] kv _ _.
      eapply guarantees_bind; [apply Executor_replaceVariables_backend|]. intros value _.
      by apply guarantees_call. }
    intros _ _. executor_steps.
  - unfold executor.executeFile.
    apply guarantees_if; [|apply guarantees_if; [|apply guarantees_if; [|apply guarantees_if]]].
    + unfold executor.fileRead.
      eapply guarantees_bind; [apply Executor_replaceVariables_backend|]. intros p _.
      executor_steps.
    + unfold executor.fileWrite.
      eapply guarantees_bind; [apply Executor_replaceVariables_backend|]. intros p _.
      eapply guarantees_bind; [apply Executor_replaceVariables_backend|]. intros c _.
      executor_steps.
    + unfold executor.fileDelete.
      eapply guarantees_bind; [apply Executor_replaceVariables_backend|]. intros p _.
      executor_steps.
    + unfold executor.fileCopy.
      eapply guarantees_bind; [apply Executor_replaceVariables_backend|]. intros p _.
      eapply guarantees_bind; [apply Executor_replaceVariables_backend|]. intros d _.
      executor_steps.
    + by apply guarantees_ret.
  - by apply guarantees_ret.
Qed.

(** One dispatch: the clock, the backend, the clock. *)
Lemma Execute_events ex ctx task w :
  exists mid,
    history (executor.Execute ex ctx task w).2 = history w ++ EvNow :: mid ++ [EvNow] /\
    Forall (backendEvent ctx) mid.
Proof.
  unfold executor.Execute. rewrite bind_eq, bind_eq.
  destruct (dispatch_backend ex ctx task (time_Now w).2) as (_ & _ & mid & Hmid & Hq).
  match type of Hmid with
  | history (?c _).2 = _ => destruct (c (time_Now w).2) as [[output err] w2]
  end.
  cbn [fst snd] in *. rewrite bind_eq. cbn. rewrite Hmid. cbn.
  exists mid. split; [|done]. by rewrite <- !app_assoc.
Qed.

Lemma backendEvent_executorEvent ctx ev : backendEvent ctx ev -> executorEvent ctx ev.
Proof. by destruct ev. Qed.

Lemma backend_clockReads ctx mid : Forall (backendEvent ctx) mid -> clockReads mid = [].
Proof.
  induction 1 as [|ev mid Hev _ IH]; [done|].
  unfold clockReads in *. cbn. rewrite IH. by destruct ev.
Qed.

Lemma clockReads_app h1 h2 : clockReads (h1 ++ h2) = clockReads h1 ++ clockReads h2.
Proof. apply List.filter_app. Qed.

(** The executor passes the context it is given to every process and
    request, neither sleeps nor prints, and reads the clock twice. *)
Lemma Execute_clock ex ctx task w :
  exists evs,
    history (executor.Execute ex ctx task w).2 = history w ++ evs /\
    Forall (executorEvent ctx) evs /\
    length (clockReads evs) = 2%nat.
Proof.
  destruct (Execute_events ex ctx task w) as (mid & Hh & Hmid).
  exists (EvNow :: mid ++ [EvNow]). split; [done|]. split.
  - constructor; [done|]. apply Forall_app. split; [|by repeat constructor].
    eapply Forall_impl; [exact Hmid | apply backendEvent_executorEvent].
  - change (EvNow :: mid ++ [EvNow]) with ([EvNow] ++ mid ++ [EvNow]).
    by rewrite !clockReads_app, (backend_clockReads ctx mid Hmid).
Qed.






Lemma quiet_events ctx evs :
  Forall (executorEvent ctx) evs -> prints evs = [] /\ sleeps evs = [].
Proof.
  induction 1 as [|ev evs Hev _ [IHp IHs]]; [done|].
  unfold prints, sleeps in *. cbn. rewrite IHp, IHs. by destruct ev.
Qed.

Lemma prints_app h1 h2 : prints (h1 ++ h2) = prints h1 ++ prints h2.
Proof. apply List.filter_app. Qed.

Lemma sleeps_app h1 h2 : sleeps (h1 ++ h2) = sleeps h1 ++ sleeps h2.
Proof. apply List.filter_app. Qed.

Lemma afterSleep_history delay made w :
  oracle (afterSleep delay made w) = oracle w /\
  exists pre, history (afterSleep delay made w) = history w ++ pre /\
              prints pre = [] /\ clockReads pre = [] /\
              length (sleeps pre) =
                (if (0 <? delay)%Z then (if made is O then 0 else 1) else 0)%nat.
Proof.
  unfold afterSleep. destruct made as [|made]; cbn [Nat.ltb Nat.leb andb].
  - split; [done|]. exists []. rewrite app_nil_r. by destruct (0 <? delay)%Z.
  - destruct (0 <? delay)%Z; cbn.
    + split; [done|]. by exists [EvSleep delay].
    + split; [done|]. exists []. by rewrite app_nil_r.
Qed.

(** The attempts of the loop entered after [made] attempts: [k] of them,
    with a message after each but the last, and a sleep before each but
    the very first. *)
Lemma attemptLoop_accounting e taskCtx task maxAttempts delay rest :
  forall attempt made w,
    attempt = Z.of_nat made ->
    (maxAttempts - 1 - attempt)%Z = Z.of_nat rest ->
    let out := attemptLoop e taskCtx task maxAttempts delay rest attempt w in
    exists evs k,
      history out.2 = history w ++ evs /\
      (1 <= k <= S rest)%nat /\
      length (prints evs) = (k - 1)%nat /\
      length (sleeps evs) =
        (if (0 <? delay)%Z then k - (if made is O then 1 else 0) else 0)%nat /\
      length (clockReads evs) = (2 * k)%nat /\
      (Success out.1 = false -> k = S rest).
Proof.
  induction rest as [|rest IH]; intros attempt made w Hmade Hrest; cbn zeta.
  all: destruct (attemptLoop e taskCtx task maxAttempts delay _ attempt w)
         as [res w'] eqn:Hrun; cbn [fst snd];
       cbn [attemptLoop] in Hrun; unfold bind at 1 in Hrun;
       rewrite (sleep_step delay attempt made w Hmade) in Hrun;
       unfold bind at 1 in Hrun;
       destruct (afterSleep_history delay made w) as (Hos & pre & Hpre & Hpp & Hpc & Hps);
       destruct (Execute_clock (executor_ e) taskCtx task (afterSleep delay made w))
         as (evs & Hevs & Hq & Hclock);
       destruct (Execute_guarantees (executor_ e) taskCtx task (afterSleep delay made w))
         as ((_ & _ & Hsucc) & _);
       destruct (executor.Execute (executor_ e) taskCtx task (afterSleep delay made w))
         as [[r err] w1] eqn:Hexec; cbn [fst snd] in *;
       destruct (quiet_events _ _ Hq) as [Hqp Hqs].
  - assert (res = r /\ w' = w1) as [-> ->].
    { destruct err as [err|]; [|by injection Hrun as <- <-].
      assert (Hlast : (attempt <? maxAttempts - 1)%Z = false) by (apply Z.ltb_ge; lia).
      rewrite Hlast in Hrun. cbn in Hrun. by injection Hrun as <- <-. }
    exists (pre ++ evs), 1%nat.
    split; [by rewrite Hevs, Hpre, app_assoc|]. split; [lia|].
    rewrite prints_app, sleeps_app, clockReads_app, Hpp, Hpc, Hqp, Hqs, !app_nil_r, Hps.
    split; [done|]. split; [|split; done].
    destruct (0 <? delay)%Z, made; done.
  - destruct err as [err|].
    + assert (Hmore : (attempt <? maxAttempts - 1)%Z = true) by (apply Z.ltb_lt; lia).
      rewrite Hmore in Hrun. unfold bind at 1 in Hrun.
      cbn [fmt_Printf call fst snd] in Hrun.
      set (w2 := mkWorld _ _) in Hrun.
      destruct (IH (attempt + 1)%Z (S made) w2)
        as (evs' & k & Hh & Hk & Hp & Hs & Hc & Hfail);
        [lia | lia |].
      cbn zeta in *. rewrite Hrun in Hh, Hfail. cbn [fst snd] in *.
      exists (pre ++ evs ++ [EvPrint (retryMessage task attempt maxAttempts)] ++ evs'), (S k).
      split.
      { rewrite Hh. subst w2. cbn [history]. rewrite Hevs, Hpre.
        by rewrite <- !app_assoc. }
      split; [lia|].
      rewrite !prints_app, !sleeps_app, !clockReads_app, Hpp, Hpc, Hqp, Hqs.
      rewrite !length_app, Hps, Hp, Hs, Hc, Hclock.
      unfold prints, sleeps, clockReads. cbn [List.filter length].
      split; [lia|]. split; [|split].
      * destruct (0 <? delay)%Z, made; lia.
      * lia.
      * intros Hf. specialize (Hfail Hf). lia.
    + injection Hrun as <- <-.
      exists (pre ++ evs), 1%nat.
      split; [by rewrite Hevs, Hpre, app_assoc|]. split; [lia|].
      rewrite prints_app, sleeps_app, clockReads_app, Hpp, Hpc, Hqp, Hqs, !app_nil_r, Hps.
      split; [done|]. split; [|split; [done | by rewrite Hsucc]].
      destruct (0 <? delay)%Z, made; done.
Qed.

(** X8. Past the condition, a task makes between one and [maxAttempts]
    attempts, each reading the clock twice, at its start and at its end.
    Between two attempts it prints one progress message, and sleeps once
    when the delay is positive: no message follows the last attempt and
    no sleep precedes the first. A result that is a failure means that
    every allowed attempt was made. *)
Theorem X8_retry_accounting e ctx task w :
  let out := executeWithRetries e ctx task w in
  exists evs used,
    history out.2 = history w ++ evs /\
    (1 <= used <= Z.to_nat (effectiveAttempts task))%nat /\
    length (clockReads evs) = (2 * used)%nat /\
    length (prints evs) = (used - 1)%nat /\
    length (sleeps evs) =
      (if (0 <? effectiveDelay task)%Z then used - 1 else 0)%nat /\
    (Success out.1 = false -> used = Z.to_nat (effectiveAttempts task)).
Proof.
  cbn zeta.
  assert (Hpos : (1 <= effectiveAttempts task)%Z).
  { unfold effectiveAttempts. destruct (Z.ltb_spec 0 (MaxAttempts (Retry task))); lia. }
  destruct (attemptLoop_accounting e (taskContext ctx task) task
              (effectiveAttempts task) (effectiveDelay task)
              (Z.to_nat (effectiveAttempts task - 1)) 0%Z 0%nat w)
    as (evs & k & Hh & Hk & Hp & Hs & Hc & Hfail); [done | lia |].
  cbn zeta in *. exists evs, k.
  replace (Z.to_nat (effectiveAttempts task))
    with (S (Z.to_nat (effectiveAttempts task - 1))) by lia.
  repeat split; try done; lia.
Qed.

Lemma X8_witness :
  exists evs,
    history (executeWithRetries (NewEngine (workflowOf ∅ [])) Background
               (withRetry 3 0 (plainTask "deploy" "docker" "run" [])) echoWorld).2
    = history echoWorld ++ evs /\
    length (prints evs) = 2%nat.
Proof.
  destruct (X8_retry_accounting (NewEngine (workflowOf ∅ [])) Background
              (withRetry 3 0 (plainTask "deploy" "docker" "run" [])) echoWorld)
    as (evs & used & Hh & _ & _ & Hp & _ & Hfail).
  exists evs. split; [exact Hh|].
  rewrite Hp, (Hfail ltac:(vm_compute; reflexivity)). reflexivity.
Defined.

(** ** [Run]: how many executions *)

Lemma filter_length_split {A} (p q r : A -> bool) (l : list A) :
  (forall x, In x l -> q x = true -> p x = true /\ r x = false) ->
  (forall x, In x l -> r x = true -> p x = true) ->
  (length (List.filter q l) + length (List.filter r l) <= length (List.filter p l))%nat.
Proof.
  induction l as [|x l IH]; intros Hq Hr; [done|]. cbn.
  assert (IH' := IH (fun y Hy => Hq y (or_intror Hy)) (fun y Hy => Hr y (or_intror Hy))).
  pose proof (Hq x (or_introl eq_refl)) as Hqx.
  pose proof (Hr x (or_introl eq_refl)) as Hrx.
  destruct (q x) eqn:Eq, (r x) eqn:Er, (p x) eqn:Ep; cbn; try lia.
  all: try (destruct (Hqx eq_refl); congruence).
  all: try (specialize (Hrx eq_refl); congruence).
Qed.

Lemma groups_length (ready : list Task) :
  length (parallelTasks ready ++ sequentialTasks ready) = length ready.
Proof. apply Permutation_length, groups_Permutation. Qed.

Lemma ready_le_remaining st : (length (readyTasks st) <= remaining st)%nat.
Proof.
  rewrite remaining_alt. unfold readyTasks.
  apply filter_length_le. intros t _ H.
  by apply andb_true_iff in H as [? _].
Qed.

(** Recording results for all the ready tasks takes as many tasks out of
    the unexecuted ones. *)
Lemma remaining_after_ready st rs :
  map TaskName rs = map Name (parallelTasks (readyTasks st) ++ sequentialTasks (readyTasks st)) ->
  (remaining (fold_left record rs st) + length (readyTasks st) <= remaining st)%nat.
Proof.
  intros Hnames. rewrite !remaining_alt, tasksOf_recorded. unfold readyTasks at 1.
  apply filter_length_split.
  - intros t Ht Hq. apply negb_true_iff in Hq.
    destruct (isExecuted (executed st) (Name t)) eqn:Hex.
    + assert (isExecuted (executed (fold_left record rs st)) (Name t) = true)
        by (apply isExecuted_recorded; by left). congruence.
    + split; [done|]. cbn.
      destruct (dependenciesMet (engine st) t (executed st)) eqn:Hd; [|done].
      assert (isExecuted (executed (fold_left record rs st)) (Name t) = true); [|congruence].
      apply isExecuted_recorded. right. rewrite Hnames.
      apply in_map, In_groups, In_readyTasks. by repeat split.
  - intros t _ H. by apply andb_true_iff in H as [? _].
Qed.

Lemma withinTasks_round ctx st w step w' :
  withinTasks st -> round ctx st w = (step, w') ->
  match step with
  | Continue st' => withinTasks st' /\ tasksOf st' = tasksOf st
  | Return rs _ => (length rs <= length (tasksOf st))%nat
  end.
Proof.
  unfold withinTasks. intros Hin Hround.
  destruct (readyTasks st) as [|t0 ready0] eqn:Hready.
  { rewrite round_none_ready in Hround by done. injection Hround as <- _. lia. }
  assert (Hne : readyTasks st <> []) by (by rewrite Hready).
  pose proof (round_spec ctx st w Hne) as Hspec. cbn zeta in Hspec.
  rewrite Hround in Hspec. cbn [fst] in Hspec.
  pose proof (ready_le_remaining st) as Hle.
  pose proof (groups_length (readyTasks st)) as Hgl.
  destruct Hspec as [(rs & -> & Hnames)
                    | (pre & t & post & rs & r & Hseq & Hnames & Hn & Hs & Hc & ->)].
  - pose proof (remaining_after_ready st rs Hnames) as Hrem.
    rewrite allResults_recorded, length_app, tasksOf_recorded.
    assert (length rs = length (readyTasks st)).
    { by rewrite <- (length_map TaskName), Hnames, length_map. }
    split; [lia | done].
  - assert (Hlen : length rs = length (parallelTasks (readyTasks st) ++ pre)).
    { by rewrite <- (length_map TaskName), Hnames, length_map. }
    rewrite length_app, Hseq in Hgl. rewrite !length_app in *. cbn in *. lia.
Qed.

Lemma runLoop_bounded ctx : forall fuel st w rs err w',
  withinTasks st ->
  runLoop fuel ctx st w = (Some (rs, err), w') ->
  (length rs <= length (tasksOf st))%nat.
Proof.
  induction fuel as [|fuel IH]; intros st w rs err w' Hin Hrun; [done|].
  cbn [runLoop] in Hrun.
  destruct (size (executed st) <? length (tasksOf st))%nat.
  - unfold bind in Hrun. destruct (round ctx st w) as [step w1] eqn:Hround.
    pose proof (withinTasks_round ctx st w step w1 Hin Hround) as Hstep.
    destruct step as [rs' err'|st'].
    + by injection Hrun as <- _ _.
    + destruct Hstep as [Hin' Htasks]. rewrite <- Htasks. by apply (IH st' w1 rs err w').
  - injection Hrun as <- _ _. unfold withinTasks in Hin. lia.
Qed.

(** X9. [Run] always returns, and with no more results than the workflow
    has tasks, whatever the names, the dependencies and the outcomes of
    the tasks are. *)
Theorem X9_run_terminates_within_tasks e ctx w :
  exists rs err w',
    Run e ctx w = (Some (rs, err), w') /\
    (length rs <= length (Tasks (workflow_ e)))%nat.
Proof.
  destruct (Run_returns e ctx w) as (rs & err & w' & Hrun).
  exists rs, err, w'. split; [done|].
  apply (runLoop_bounded ctx (S (length (Tasks (workflow_ e)))) (initialState e) w rs err w');
    [|exact Hrun].
  unfold withinTasks. cbn [initialState allResults]. apply remaining_initial.
Qed.

(** ** [Run]: how it ends *)

(** The sequential group, with what is known of each recorded result. *)
Lemma runSequential_outcome ctx ts :
  forall st w,
    let out := runSequential ctx ts st w in
    (exists rs, out.1 = Continue (fold_left record rs st) /\ Forall2 tolerated ts rs) \/
    (exists pre t post rs r,
        ts = pre ++ t :: post /\ Forall2 tolerated pre rs /\
        TaskName r = Name t /\ Success r = false /\ ContinueOnError t = false /\
        out.1 = Return (allResults st ++ rs ++ [r]) (Some (failedError t r))).
Proof.
  induction ts as [|t ts IH]; intros st w; cbn [runSequential].
  - left. exists []. split; [done | constructor].
  - unfold bind.
    pose proof (executeTask_name (engine st) ctx t w) as Hname.
    destruct (executeTask (engine st) ctx t w) as [r w1]. cbn [fst] in Hname.
    destruct (negb (Success r) && negb (ContinueOnError t)) eqn:Hstop.
    + right. apply andb_true_iff in Hstop as [Hs Hc].
      apply negb_true_iff in Hs, Hc.
      exists [], t, ts, [], r. repeat split; try done; constructor.
    + assert (Htol : tolerated t r).
      { split; [done|]. apply andb_false_iff in Hstop as [H|H];
          apply negb_false_iff in H; auto. }
      destruct (IH (record st r) w1) as [(rs & Hout & Hall) | Hret].
      * left. exists (r :: rs). split; [exact Hout | by constructor].
      * right. destruct Hret as (pre & t' & post & rs & r' & -> & Hall & Hn' & Hs & Hc & Hout).
        exists (t :: pre), t', post, (r :: rs), r'.
        repeat split; try done.
        -- by constructor.
        -- rewrite Hout. cbn. by rewrite <- app_assoc.
Qed.

Lemma Forall2_names (ts : list Task) (rs : list TaskResult) :
  map TaskName rs = map Name ts -> Forall2 (fun t r => TaskName r = Name t) ts rs.
Proof.
  revert rs. induction ts as [|t ts IH]; intros [|r rs] Heq; try discriminate.
  - constructor.
  - cbn in Heq. injection Heq as Hn Heq. constructor; [done | by apply IH].
Qed.

Lemma excusable_group (tasks ts : list Task) (rs : list TaskResult)
    (ok : Task -> TaskResult -> Prop) :
  (forall t, In t ts -> In t tasks) ->
  (forall t r, In t ts -> ok t r ->
               TaskName r = Name t /\
               (Success r = true \/ Parallel t = true \/ ContinueOnError t = true)) ->
  Forall2 ok ts rs -> Forall (excusable tasks) rs.
Proof.
  intros Hin Hok Hall. induction Hall as [|t r ts rs Htr _ IH]; [constructor|].
  constructor.
  - destruct (Hok t r (or_introl eq_refl) Htr) as [Hn Hex].
    exists t. split; [apply Hin; by left|]. by split.
  - apply IH.
    + intros t' Ht'. apply Hin. by right.
    + intros t' r' Ht'. apply Hok. by right.
Qed.

Lemma In_parallelTasks ready t : In t (parallelTasks ready) <-> In t ready /\ Parallel t = true.
Proof. unfold parallelTasks. apply filter_In. Qed.

Lemma In_sequentialTasks ready t :
  In t (sequentialTasks ready) <-> In t ready /\ Parallel t = false.
Proof. unfold sequentialTasks. rewrite filter_In, negb_true_iff. tauto. Qed.

Lemma Replayed_recorded e st rs :
  Replayed e st ->
  (forall r, In r rs -> In (TaskName r) (map Name (Tasks (workflow_ e)))) ->
  Replayed e (fold_left record rs st).
Proof.
  intros (rs0 & -> & Hnames) Hnew. exists (rs0 ++ rs). split.
  - by rewrite fold_left_record_app.
  - intros r [Hr|Hr]%in_app_iff; [by apply Hnames | by apply Hnew].
Qed.

Lemma excusable_names tasks rs :
  Forall (excusable tasks) rs -> forall r, In r rs -> In (TaskName r) (map Name tasks).
Proof.
  intros Hall r Hr.
  destruct (proj1 (List.Forall_forall _ _) Hall r Hr) as (t & Ht & <- & _).
  by apply in_map.
Qed.

Lemma Replayed_unexecuted e st :
  Replayed e st -> unexecuted st = stuckNames (Tasks (workflow_ e)) (allResults st).
Proof.
  intros Hrep. unfold unexecuted, stuckNames.
  rewrite (Replayed_tasksOf e st Hrep). f_equal.
  apply List.filter_ext. intros t. f_equal.
  destruct Hrep as (rs & -> & _). rewrite allResults_recorded. cbn [initialState allResults app].
  destruct (isExecuted (executed (fold_left record rs (initialState e))) (Name t)) eqn:Hex.
  - symmetry. apply bool_decide_eq_true, list_elem_of_In.
    apply isExecuted_recorded in Hex as [Hex|Hex]; [done | exact Hex].
  - symmetry. apply bool_decide_eq_false. intros Hin%list_elem_of_In.
    assert (isExecuted (executed (fold_left record rs (initialState e))) (Name t) = true);
      [|congruence].
    apply isExecuted_recorded. by right.
Qed.

(** One iteration, from a state whose results are all excusable. *)
Lemma Tolerant_round e ctx st w step w' :
  Tolerant e st -> round ctx st w = (step, w') ->
  match step with
  | Continue st' => Tolerant e st'
  | Return rs err =>
      RunEnds (Tasks (workflow_ e)) rs err /\
      (err = None -> rs = allResults st /\
                     ~ (size (executed st) < length (tasksOf st))%nat)
  end.
Proof.
  intros [Hrep Hexc] Hround.
  pose proof (Replayed_tasksOf e st Hrep) as Htasks.
  destruct (readyTasks st) as [|t0 ready0] eqn:Hready.
  { rewrite round_none_ready in Hround by done. injection Hround as <- _.
    destruct (Nat.ltb_spec (size (executed st)) (length (tasksOf st))).
    - split; [|done]. right. left. split; [|done].
      by rewrite (Replayed_unexecuted e st Hrep).
    - split; [by left|]. intros _. split; [done | lia]. }
  assert (Hne : readyTasks st <> []) by (by rewrite Hready).
  rewrite round_ready in Hround by done.
  destruct (runParallel_spec ctx (parallelTasks (readyTasks st)) st w) as (rsp & Hp & Hnp).
  destruct (runParallel ctx (parallelTasks (readyTasks st)) st w) as [stp wp].
  cbn [fst] in Hp. subst stp.
  assert (Hpar : Forall (excusable (Tasks (workflow_ e))) rsp).
  { apply (excusable_group _ (parallelTasks (readyTasks st)) rsp
             (fun t r => TaskName r = Name t)).
    - intros t (Ht & _)%In_parallelTasks. rewrite <- Htasks.
      by apply In_readyTasks in Ht as (? & _).
    - intros t r (_ & Hpt)%In_parallelTasks Hn. auto.
    - by apply Forall2_names. }
  assert (Hseq_in : forall t, In t (sequentialTasks (readyTasks st)) ->
                              In t (Tasks (workflow_ e)) /\ Parallel t = false).
  { intros t (Ht & Hpt)%In_sequentialTasks. split; [|done]. rewrite <- Htasks.
    by apply In_readyTasks in Ht as (? & _). }
  pose proof (runSequential_outcome ctx (sequentialTasks (readyTasks st))
                (fold_left record rsp st) wp) as Hout.
  cbn zeta in Hout. rewrite Hround in Hout. cbn [fst] in Hout.
  destruct Hout as [(rs & -> & Hall)
                   | (pre & t & post & rs & r & Hts & Hall & Hn & Hs & Hc & ->)].
  - assert (Hrs : Forall (excusable (Tasks (workflow_ e))) rs).
    { apply (excusable_group _ (sequentialTasks (readyTasks st)) rs tolerated).
      - intros t Ht. by apply Hseq_in.
      - intros t r _ [Hn Hok]. split; [done|]. tauto.
      - done. }
    rewrite <- fold_left_record_app. split.
    + apply Replayed_recorded; [done|].
      apply excusable_names. by apply Forall_app.
    + rewrite allResults_recorded.
      apply Forall_app. split; [done|]. apply Forall_app. by split.
  - assert (Hrs : Forall (excusable (Tasks (workflow_ e))) rs).
    { apply (excusable_group _ pre rs tolerated).
      - intros t' Ht'. apply Hseq_in. rewrite Hts. apply in_app_iff. by left.
      - intros t' r' _ [Hn' Hok]. split; [done|]. tauto.
      - done. }
    assert (Ht : In t (sequentialTasks (readyTasks st)))
      by (rewrite Hts; apply in_app_iff; right; by left).
    destruct (Hseq_in t Ht) as [Htin Htp].
    split; [|done]. right. right.
    exists (allResults st ++ rsp ++ rs), r, t.
    rewrite allResults_recorded. split; [by rewrite <- !app_assoc|].
    split; [apply Forall_app; split; [done|]; apply Forall_app; by split|].
    by repeat split.
Qed.

(** What [Run] returns, from a state whose results are all excusable. *)
Lemma Tolerant_runLoop e ctx : forall fuel st w rs err w',
  Tolerant e st ->
  runLoop fuel ctx st w = (Some (rs, err), w') ->
  RunEnds (Tasks (workflow_ e)) rs err /\
  (err = None ->
   exists st', Replayed e st' /\ rs = allResults st' /\
               ~ (size (executed st') < length (tasksOf st'))%nat).
Proof.
  induction fuel as [|fuel IH]; intros st w rs err w' Htol Hrun; [done|].
  cbn [runLoop] in Hrun.
  destruct (Nat.ltb_spec (size (executed st)) (length (tasksOf st))).
  - unfold bind in Hrun. destruct (round ctx st w) as [step w1] eqn:Hround.
    pose proof (Tolerant_round e ctx st w step w1 Htol Hround) as Hstep.
    destruct step as [rs' err'|st'].
    + injection Hrun as <- <- _. destruct Hstep as [Hends Hnone].
      split; [done|]. intros Herr. destruct (Hnone Herr) as [-> Htest].
      exists st. by destruct Htol.
    + by apply (IH st' w1 rs err w').
  - injection Hrun as <- <- _. destruct Htol as [Hrep Hexc]. split; [by left|].
    intros _. exists st. repeat split; [done|lia].
Qed.

Lemma Tolerant_initial e : Tolerant e (initialState e).
Proof. split; [exists []; by split | constructor]. Qed.

(** X10. [Run] ends in one of three ways and no other: without error;
    with the deadlock error, which lists, in declared order, exactly the
    tasks that have no result; or with the failure error of a task that is
    not flagged parallel, whose [continueOnError] is false and whose failed
    result is the last one returned. Every other failed result returned
    belongs to a task flagged parallel or [continueOnError]: a failing
    parallel task never ends the run by itself. *)
Theorem X10_how_run_ends e ctx w rs err w' :
  Run e ctx w = (Some (rs, err), w') ->
  RunEnds (Tasks (workflow_ e)) rs err.
Proof.
  intros Hrun.
  by destruct (Tolerant_runLoop e ctx _ _ _ _ _ _ (Tolerant_initial e) Hrun).
Qed.

Lemma X10_witness :
  RunEnds (Tasks failFastWorkflow)
    [(executeTask (NewEngine failFastWorkflow) Background failingTask echoWorld).1]
    (Some (failedError failingTask
             (executeTask (NewEngine failFastWorkflow) Background failingTask echoWorld).1)).
Proof.
  refine (X10_how_run_ends (NewEngine failFastWorkflow) Background echoWorld _ _
            (Run (NewEngine failFastWorkflow) Background echoWorld).2 _).
  vm_compute. reflexivity.
Defined.

(** ** [Run]: a run without error *)

Lemma size_list_to_set_NoDup (l : list string) :
  size (list_to_set l : gset string) = length l -> NoDup l.
Proof.
  induction l as [|x l IH]; cbn [list_to_set length]; [constructor|].
  rewrite size_union_alt, size_singleton. intros Hsize.
  pose proof (size_list_to_set_le l) as Hle.
  assert (Hdiff : (size (list_to_set l ∖ {[x]} : gset string)
                   <= size (list_to_set l : gset string))%nat)
    by (apply subseteq_size, subseteq_difference_l; done).
  apply NoDup_cons. split.
  - intros Hx.
    assert (Hstrict : (list_to_set l ∖ {[x]} : gset string) ⊂ list_to_set l)
      by (apply subset_difference_elem_of, elem_of_list_to_set; done).
    apply subset_size in Hstrict. lia.
  - apply IH. lia.
Qed.

(** A run that ends without error went through every name, and the names
    are pairwise distinct. *)
Lemma completed_run e ctx w rs w' :
  Run e ctx w = (Some (rs, None), w') ->
  NoDup (map Name (Tasks (workflow_ e))) /\
  (exists st, Good e st /\ rs = allResults st) /\
  (forall name, In name (map Name (Tasks (workflow_ e))) -> In name (map TaskName rs)).
Proof.
  intros Hrun.
  destruct (Tolerant_runLoop e ctx _ _ _ _ _ _ (Tolerant_initial e) Hrun) as [_ Hnone].
  destruct (Hnone eq_refl) as (st & Hrep & -> & Htest).
  pose proof (Replayed_tasksOf e st Hrep) as Htasks.
  destruct Hrep as (rs & Hst & Hnames).
  assert (Hrs : allResults st = rs) by (by rewrite Hst, allResults_recorded).
  set (names := map Name (Tasks (workflow_ e))) in *.
  assert (Hdom : dom (executed st) = list_to_set (map TaskName rs)).
  { rewrite Hst, dom_executed_recorded. cbn [initialState executed].
    by rewrite dom_empty_L, (right_id_L ∅ (∪)). }
  assert (Hsub : (list_to_set (map TaskName rs) : gset string) ⊆ list_to_set names).
  { intros name Hname. apply elem_of_list_to_set, list_elem_of_In in Hname.
    apply elem_of_list_to_set, list_elem_of_In.
    apply in_map_iff in Hname as (r & <- & Hr). by apply Hnames. }
  pose proof (subseteq_size _ _ Hsub) as Hle1.
  pose proof (size_list_to_set_le names) as Hle2.
  assert (Hlen : length names = length (tasksOf st))
    by (unfold names; by rewrite length_map, Htasks).
  rewrite <- size_dom, Hdom in Htest.
  assert (Huniq : NoDup names) by (apply size_list_to_set_NoDup; lia).
  split; [exact Huniq|]. rewrite Hrs in Hrun. split.
  - rewrite Hrs. destruct (runLoop_Good e ctx _ _ _ rs None w' Huniq (Good_initial e) Hrun)
      as (st' & Hgood & ->). by exists st'.
  - intros name Hname. rewrite Hrs.
    assert (Heq : (list_to_set (map TaskName rs) : gset string) = list_to_set names)
      by (apply set_subseteq_size_eq; [done | lia]).
    apply list_elem_of_In, (elem_of_list_to_set (C := gset string)).
    rewrite Heq. by apply elem_of_list_to_set, list_elem_of_In.
Qed.

(** X11. [Run] returns without error only when every task has exactly one
    result: the names of the results are then a rearrangement of the names
    of the tasks, and these are pairwise distinct. A workflow in which two
    tasks share a name therefore never runs without a run-level error. *)
Theorem X11_no_error_means_all_executed e ctx w rs w' :
  Run e ctx w = (Some (rs, None), w') ->
  NoDup (map Name (Tasks (workflow_ e))) /\
  map TaskName rs ≡ₚ map Name (Tasks (workflow_ e)) /\
  length rs = length (Tasks (workflow_ e)).
Proof.
  intros Hrun.
  destruct (completed_run e ctx w rs w' Hrun) as (Huniq & (st & Hgood & ->) & Hall).
  assert (Hperm : map TaskName (allResults st) ≡ₚ map Name (Tasks (workflow_ e))).
  { apply NoDup_Permutation; [apply (good_nodup e st Hgood) | exact Huniq |].
    intros name. rewrite !list_elem_of_In. split; [|apply Hall].
    intros (r & <- & Hr)%in_map_iff. by apply (good_names e st Hgood). }
  split; [done|]. split; [done|].
  apply Permutation_length in Hperm. by rewrite !length_map in Hperm.
Qed.

Lemma X11_witness :
  NoDup (map Name (Tasks (workflow_ (NewEngine pipeline)))) /\
  map TaskName [builtResult; testedResult]
    ≡ₚ map Name (Tasks (workflow_ (NewEngine pipeline))) /\
  length [builtResult; testedResult] = length (Tasks (workflow_ (NewEngine pipeline))).
Proof.
  refine (X11_no_error_means_all_executed (NewEngine pipeline) Background echoWorld
            [builtResult; testedResult]
            (Run (NewEngine pipeline) Background echoWorld).2 _).
  vm_compute. reflexivity.
Defined.

(** X12. In a run that ends without error every dependency edge was
    honoured by a success: each name in a task's dependency list names a
    task of the workflow, and that task has a successful result. A task
    that failed in such a run is one no task depends on. *)
Theorem X12_no_error_means_dependencies_succeeded e ctx w rs w' :
  Run e ctx w = (Some (rs, None), w') ->
  forall b dep,
    In b (Tasks (workflow_ e)) -> In dep (DependsOn b) ->
    In dep (map Name (Tasks (workflow_ e))) /\
    exists ra, In ra rs /\ TaskName ra = dep /\ Success ra = true /\
               forall r, In r rs -> TaskName r = dep -> r = ra.
Proof.
  intros Hrun b dep Hb Hdep.
  destruct (completed_run e ctx w rs w' Hrun) as (Huniq & (st & Hgood & ->) & Hall).
  assert (Hin : In (Name b) (map TaskName (allResults st)))
    by (apply Hall; by apply in_map).
  apply in_map_iff in Hin as (rb & Hnb & Hrb).
  apply in_split in Hrb as (before & after & Heq).
  destruct (good_order e st Hgood before rb after b Heq Hb (eq_sym Hnb) dep Hdep)
    as (ra & Hra & Hna & Hok).
  assert (Hra' : In ra (allResults st)) by (rewrite Heq; apply in_app_iff; by left).
  split.
  - rewrite <- Hna. by apply (good_names e st Hgood).
  - exists ra. repeat split; try done.
    intros r Hr Hn.
    apply (NoDup_map_injective TaskName (allResults st)); try done.
    + apply (good_nodup e st Hgood).
    + congruence.
Qed.

Lemma X12_witness :
  In "build" (map Name (Tasks (workflow_ (NewEngine pipeline)))) /\
  exists ra, In ra [builtResult; testedResult] /\ TaskName ra = "build" /\
             Success ra = true /\
             forall r, In r [builtResult; testedResult] -> TaskName r = "build" -> r = ra.
Proof.
  refine (X12_no_error_means_dependencies_succeeded (NewEngine pipeline) Background
            echoWorld [builtResult; testedResult]
            (Run (NewEngine pipeline) Background echoWorld).2 _ testTask "build" _ _).
  - vm_compute. reflexivity.
  - left. reflexivity.
  - left. reflexivity.
Defined.
(** ** [Run]: dependencies that cannot be met, and the result store *)

(** In a run without error, a result of each dependency of a task comes
    before the result of the task. *)
Lemma completed_dependency e ctx w rs w' b dep :
  Run e ctx w = (Some (rs, None), w') ->
  In b (Tasks (workflow_ e)) -> In dep (DependsOn b) ->
  NoDup (map TaskName rs) /\
  exists before rb after ra,
    rs = before ++ rb :: after /\ TaskName rb = Name b /\
    In ra before /\ TaskName ra = dep /\ Success ra = true /\
    In dep (map Name (Tasks (workflow_ e))).
Proof.
  intros Hrun Hb Hdep.
  destruct (completed_run e ctx w rs w' Hrun) as (Huniq & (st & Hgood & ->) & Hall).
  split; [apply (good_nodup e st Hgood)|].
  assert (Hin : In (Name b) (map TaskName (allResults st)))
    by (apply Hall; by apply in_map).
  apply in_map_iff in Hin as (rb & Hnb & Hrb).
  apply in_split in Hrb as (before & after & Heq).
  destruct (good_order e st Hgood before rb after b Heq Hb (eq_sym Hnb) dep Hdep)
    as (ra & Hra & Hna & Hok).
  exists before, rb, after, ra. repeat split; try done.
  rewrite <- Hna. apply (good_names e st Hgood).
  rewrite Heq. apply in_app_iff. by left.
Qed.

(** X13. A task with a dependency that cannot be met, because the
    dependency is the task's own name or the name of no task of the
    workflow, is in the ready set of no iteration of [Run], and [Run]
    returns an error whatever the other tasks do. *)
Theorem X13_unsatisfiable_dependency e ctx w0 b dep :
  In b (Tasks (workflow_ e)) -> In dep (DependsOn b) ->
  dep = Name b \/ ~ In dep (map Name (Tasks (workflow_ e))) ->
  (forall st w, Reaches e ctx w0 st w -> ~ In b (readyTasks st)) /\
  (forall rs err w', Run e ctx w0 = (Some (rs, err), w') -> err <> None).
Proof.
  intros Hb Hdep Hbad. split.
  - intros st w Hreach Hready.
    pose proof (Reaches_Replayed e ctx w0 st w Hreach) as Hrep.
    apply In_readyTasks in Hready as (_ & Hfresh & Hmet).
    unfold dependenciesMet in Hmet. apply depsMet_Forall in Hmet.
    apply (proj1 (List.Forall_forall _ _)) with (x := dep) in Hmet; [|done].
    destruct Hmet as [Hex _]. destruct Hbad as [->|Hmissing].
    + congruence.
    + apply Hmissing. by apply (Replayed_executed e st).
  - intros rs err w' Hrun ->.
    destruct (completed_dependency e ctx w0 rs w' b dep Hrun Hb Hdep)
      as (Hnd & before & rb & after & ra & -> & Hnb & Hra & Hna & _ & Hnamed).
    destruct Hbad as [->|Hmissing]; [|done].
    rewrite map_app in Hnd. cbn [map] in Hnd.
    apply NoDup_app in Hnd as (_ & Hdisj & _).
    apply (Hdisj (Name b)).
    + apply list_elem_of_In. rewrite <- Hna. by apply in_map.
    + rewrite Hnb. by left.
Qed.

Lemma X13_witness :
  (forall st w, Reaches (NewEngine orphanWorkflow) Background echoWorld st w ->
                ~ In orphanTask (readyTasks st)) /\
  (forall rs err w',
      Run (NewEngine orphanWorkflow) Background echoWorld = (Some (rs, err), w') ->
      err <> None).
Proof.
  apply (X13_unsatisfiable_dependency (NewEngine orphanWorkflow) Background echoWorld
           orphanTask "release").
  - right. left. reflexivity.
  - left. reflexivity.
  - right. vm_compute. intros [H|[H|[]]]; discriminate H.
Defined.

(** In a run without error the results respect the dependency relation. *)
Lemma completed_order e ctx w rs w' :
  Run e ctx w = (Some (rs, None), w') ->
  forall x y, dependsOn (Tasks (workflow_ e)) x y ->
    exists i j, (i < j)%nat /\ map TaskName rs !! i = Some y /\
                map TaskName rs !! j = Some x.
Proof.
  intros Hrun x y Hdep. induction Hdep as [b dep Hb Hdep|x y z _ IHxy _ IHyz].
  - destruct (completed_dependency e ctx w rs w' b dep Hrun Hb Hdep)
      as (_ & before & rb & after & ra & -> & Hnb & Hra & Hna & _).
    apply list_elem_of_In, list_elem_of_lookup in Hra as [i Hi].
    exists i, (length before). split; [by apply lookup_lt_Some in Hi|].
    rewrite map_app. cbn [map]. split.
    + rewrite lookup_app_l by (rewrite length_map; by apply lookup_lt_Some in Hi).
      change (map TaskName before) with (TaskName <$> before).
      by rewrite list_lookup_fmap, Hi, <- Hna.
    + rewrite <- Hnb. apply list_lookup_middle. by rewrite length_map.
  - destruct IHxy as (i & j & Hij & Hi & Hj).
    destruct IHyz as (i' & j' & Hij' & Hi' & Hj').
    destruct (completed_run e ctx w rs w' Hrun) as (_ & (st & Hgood & ->) & _).
    pose proof (good_nodup e st Hgood) as Hnd.
    assert (j' = i) as -> by (by eapply NoDup_lookup).
    exists i', j. repeat split; try done. lia.
Qed.

(** X14. In a run that ends without error, the results are in an order
    the dependencies allow: when a task depends on a name, directly or
    through other tasks, the result under that name comes before the
    result of the task, and the name is not the task's own. A workflow
    with a circular dependency therefore never runs without an error. *)
Theorem X14_results_in_dependency_order e ctx w rs w' x y :
  Run e ctx w = (Some (rs, None), w') ->
  dependsOn (Tasks (workflow_ e)) x y ->
  x <> y /\
  exists i j, (i < j)%nat /\ map TaskName rs !! i = Some y /\
              map TaskName rs !! j = Some x.
Proof.
  intros Hrun Hdep.
  destruct (completed_order e ctx w rs w' Hrun x y Hdep) as (i & j & Hij & Hi & Hj).
  split; [|by exists i, j].
  intros ->.
  destruct (completed_run e ctx w rs w' Hrun) as (_ & (st & Hgood & ->) & _).
  pose proof (NoDup_lookup _ i j y (good_nodup e st Hgood) Hi Hj). lia.
Qed.

Lemma X14_witness :
  "test" <> "build" /\
  exists i j, (i < j)%nat /\
              map TaskName [builtResult; testedResult] !! i = Some "build" /\
              map TaskName [builtResult; testedResult] !! j = Some "test".
Proof.
  refine (X14_results_in_dependency_order (NewEngine pipeline) Background echoWorld
            [builtResult; testedResult]
            (Run (NewEngine pipeline) Background echoWorld).2 "test" "build" _ _).
  - vm_compute. reflexivity.
  - apply (depends_direct (Tasks pipeline) testTask "build"); left; reflexivity.
Defined.

(** A workflow with a cycle: every run of it ends with an error. *)
Lemma cyclic_workflow_fails rs err w' :
  Run (NewEngine cyclicWorkflow) Background echoWorld = (Some (rs, err), w') ->
  err <> None.
Proof.
  intros Hrun ->.
  assert (Hcycle : dependsOn (Tasks cyclicWorkflow) "chicken" "chicken").
  { apply (depends_through _ "chicken" "egg" "chicken").
    - apply (depends_direct _ chickenTask "egg"); left; reflexivity.
    - apply (depends_direct _ eggTask "chicken"); [right|]; left; reflexivity. }
  destruct (completed_order _ _ _ _ _ Hrun _ _ Hcycle) as (i & j & Hij & Hi & Hj).
  destruct (completed_run _ _ _ _ _ Hrun) as (_ & (st & Hgood & ->) & _).
  pose proof (NoDup_lookup _ i j _ (good_nodup _ st Hgood) Hi Hj). lia.
Qed.

(** ** The three records of [Run] *)

Lemma lastNamed_snoc name rs r :
  lastNamed name (rs ++ [r]) =
  if decide (TaskName r = name) then Some r else lastNamed name rs.
Proof.
  unfold lastNamed. rewrite List.filter_app. cbn [List.filter].
  destruct (decide (TaskName r = name)) as [Heq|Hne].
  - apply String.eqb_eq in Heq. rewrite Heq. apply last_snoc.
  - apply String.eqb_neq in Hne. rewrite Hne. by rewrite app_nil_r.
Qed.

Lemma recorded_store wf rs name :
  let st := fold_left record rs (initialState (NewEngine wf)) in
  executed st !! name
    = (if bool_decide (name ∈ map TaskName rs) then Some true else None) /\
  results (engine st) !! name = lastNamed name rs.
Proof.
  induction rs as [|r rs IH] using rev_ind; cbn zeta in *.
  - cbn [fold_left initialState NewEngine executed engine results map].
    rewrite !lookup_empty. split; [|done].
    rewrite bool_decide_eq_false_2; [done | apply not_elem_of_nil].
  - rewrite fold_left_app. cbn [fold_left record executed engine storeResult results].
    rewrite lastNamed_snoc, map_app. cbn [map].
    destruct IH as [IHe IHr].
    destruct (decide (TaskName r = name)) as [->|Hne].
    + rewrite !lookup_insert_eq. split; [|done].
      rewrite bool_decide_eq_true_2; [done|].
      apply elem_of_app. right. by apply list_elem_of_singleton.
    + rewrite !lookup_insert_ne by done. split; [|done].
      rewrite IHe. apply (f_equal (fun b : bool => if b then Some true else None)).
      apply bool_decide_ext. rewrite elem_of_app, list_elem_of_singleton.
      split; [by left | intros [?|?]; [done | congruence]].
Qed.

(** X15. The three records [Run] keeps agree at the head of every
    iteration, for an engine made by [NewEngine]: a name is marked in
    [executed] exactly when a result under it is in [allResults]; the mark
    is never [false]; and the result store holds, under every name, the
    result recorded last under that name, or nothing when there is none. *)
Theorem X15_records_agree wf ctx w0 st w name :
  Reaches (NewEngine wf) ctx w0 st w ->
  executed st !! name
    = (if bool_decide (name ∈ map TaskName (allResults st)) then Some true else None) /\
  results (engine st) !! name = lastNamed name (allResults st) /\
  size (executed st) = size (results (engine st)).
Proof.
  intros Hreach.
  destruct (Reaches_Replayed _ ctx w0 st w Hreach) as (rs & Hst & _).
  assert (Hrs : allResults st = rs) by (by rewrite Hst, allResults_recorded).
  rewrite Hrs. subst st.
  split; [apply recorded_store|]. split; [apply recorded_store|].
  rewrite <- !size_dom. f_equal. apply set_eq. intros key.
  rewrite !elem_of_dom.
  destruct (recorded_store wf rs key) as [He Hr]. cbn zeta in He, Hr.
  rewrite He, Hr. unfold lastNamed.
  destruct (bool_decide_reflect (key ∈ map TaskName rs)) as [Hin|Hnot].
  - split; [intros _|by eauto].
    apply list_elem_of_In, in_map_iff in Hin as (r & Hn & Hr').
    destruct (last (List.filter (fun r0 => String.eqb (TaskName r0) key) rs)) eqn:Hlast;
      [by eauto|].
    apply last_None in Hlast.
    assert (Hf : In r (List.filter (fun r0 => String.eqb (TaskName r0) key) rs))
      by (apply filter_In; split; [done | by apply String.eqb_eq]).
    rewrite Hlast in Hf. destruct Hf.
  - split; [by intros [? ?]|]. intros [r Hlast]. exfalso. apply Hnot.
    apply last_Some in Hlast as [l' Hl'].
    assert (Hf : In r (List.filter (fun r0 => String.eqb (TaskName r0) key) rs))
      by (rewrite Hl'; apply in_app_iff; right; by left).
    apply filter_In in Hf as [Hr' Hn]. apply String.eqb_eq in Hn.
    apply list_elem_of_In. rewrite <- Hn. by apply in_map.
Qed.

Lemma X15_witness :
  executed builtState !! "build"
    = (if bool_decide ("build" ∈ map TaskName (allResults builtState))
       then Some true else None) /\
  results (engine builtState) !! "build" = lastNamed "build" (allResults builtState) /\
  size (executed builtState) = size (results (engine builtState)).
Proof.
  refine (X15_records_agree pipeline Background echoWorld builtState
            (round Background (initialState (NewEngine pipeline)) echoWorld).2 "build" _).
  apply (reaches_round _ _ _ (initialState (NewEngine pipeline)) echoWorld).
  - apply reaches_start.
  - vm_compute. lia.
  - vm_compute. reflexivity.
Defined.
(** ** The engine's resolver and the parallel batch *)




(** The output of a failed [greet] does not reach a text that asks for
    it. *)
Lemma failed_output_is_left_verbatim :
  (replaceVariables failedGreetEngine "${greet.output}" echoWorld).1 = "${greet.output}" /\
  (replaceVariables greetedEngine "${greet.output}" echoWorld).1 = "hi".
Proof. split; vm_compute; reflexivity. Qed.

(** X17. A parallel batch returns one result per task, in the order of the
    batch, and a failure in it stops nothing: the result in the place of a
    task is what [executeTask] returns for that task on the engine as it
    was before the batch, so no task of a batch sees the result of
    another. *)
Theorem X17_parallel_batch e ctx ts :
  forall w,
    Forall2 (fun t r =>
               exists w1, r = (executeTask e ctx t w1).1 /\ oracle w1 = oracle w /\
                          exists evs, history w1 = history w ++ evs)
            ts (executeParallel e ctx ts w).1.
Proof.
  induction ts as [|t ts IH]; intros w; [constructor|].
  cbn [executeParallel]. unfold bind.
  destruct (executeTask_guarantees e ctx t w) as (_ & Horacle & evs & Hhist & _).
  destruct (executeTask e ctx t w) as [r w1] eqn:Hrun. cbn [fst snd] in *.
  specialize (IH w1).
  destruct (executeParallel e ctx ts w1) as [rs w2]. cbn [fst] in *.
  constructor.
  - exists w. rewrite Hrun. split; [done|]. split; [done|].
    exists []. by rewrite app_nil_r.
  - eapply Forall2_impl; [exact IH|].
    intros t' r' (w' & Hr' & Ho' & evs' & Hh'). exists w'.
    split; [done|]. split; [congruence|].
    exists (evs ++ evs'). by rewrite Hh', Hhist, app_assoc.
Qed.
(** ** The [run] command *)

Lemma succeeded_failed_length rs :
  (length (succeeded rs) + length (failed rs) = length rs)%nat.
Proof.
  unfold succeeded, failed. induction rs as [|r rs IH]; [done|].
  cbn [List.filter]. destruct (Success r); cbn [negb length]; lia.
Qed.

Section RunCommandProperties.

Variable yaml_Unmarshal : string -> Workflow + string.
Variable formatSeconds : Z -> string.

Abbreviation reportResult := (cmd.reportResult formatSeconds).
Abbreviation runCommand := (cmd.runCommand yaml_Unmarshal formatSeconds).
Abbreviation ParseWorkflowFile := (parser.ParseWorkflowFile yaml_Unmarshal).

(** The loop of the summary: what it counts and what it prints. *)
Lemma reportResult_counts rs : forall counts w,
  let run := forEach rs reportResult counts w in
  run.1 = ((counts.1 + Z.of_nat (length (succeeded rs)))%Z,
           (counts.2 + Z.of_nat (length (failed rs)))%Z) /\
  oracle run.2 = oracle w /\
  exists evs, history run.2 = history w ++ evs /\
              forallb isPrint evs = true /\
              (length rs <= length evs <= 2 * length rs)%nat.
Proof.
  induction rs as [|r rs IH]; intros [s f] w; cbn zeta.
  - cbn. rewrite !Z.add_0_r. repeat split. exists []. by rewrite app_nil_r.
  - cbn [forEach]. rewrite bind_eq.
    assert (Hbody : exists evs,
               (reportResult (s, f) r w).1
                 = (if Success r then ((s + 1)%Z, f) else (s, (f + 1)%Z)) /\
               oracle (reportResult (s, f) r w).2 = oracle w /\
               history (reportResult (s, f) r w).2 = history w ++ evs /\
               forallb isPrint evs = true /\ (1 <= length evs <= 2)%nat).
    { unfold cmd.reportResult. destruct (Success r).
      - rewrite bind_eq, bind_eq.
        destruct (negb (String.eqb (Output r) EmptyString)
                  && (String.length (Output r) <? 200)%nat).
        + eexists [_; _]. cbn. rewrite <- app_assoc. repeat split; lia.
        + eexists [_]. cbn. repeat split; lia.
      - rewrite bind_eq, bind_eq. destruct (Error r).
        + eexists [_; _]. cbn. rewrite <- app_assoc. repeat split; lia.
        + eexists [_]. cbn. repeat split; lia. }
    destruct Hbody as (evs1 & Hval & Horacle & Hhist & Hprints & Hlen).
    destruct (IH (reportResult (s, f) r w).1 (reportResult (s, f) r w).2)
      as (IHval & IHoracle & evs2 & IHhist & IHprints & IHlen).
    cbn zeta in *. rewrite IHval, IHoracle, Horacle, IHhist, Hhist, Hval.
    unfold succeeded, failed in *. cbn [List.filter fst snd length].
    split; [|split; [done|]].
    + destruct (Success r); cbn [negb length fst snd]; f_equal; lia.
    + exists (evs1 ++ evs2). rewrite app_assoc, forallb_app, Hprints, IHprints, length_app.
      cbn [length]. repeat split; lia.
Qed.

(** X18. The summary loop of the [run] command counts every result once:
    the success count is the number of results that succeeded, the failure
    count the number of those that failed, and the two add up to the
    number of results. The loop only prints, one or two lines per
    result. *)
Theorem X18_summary_counts rs w :
  let run := forEach rs reportResult (0%Z, 0%Z) w in
  run.1 = (Z.of_nat (length (succeeded rs)), Z.of_nat (length (failed rs))) /\
  (run.1.1 + run.1.2 = Z.of_nat (length rs))%Z /\
  oracle run.2 = oracle w /\
  exists evs, history run.2 = history w ++ evs /\
              forallb isPrint evs = true /\
              (length rs <= length evs <= 2 * length rs)%nat.
Proof.
  destruct (reportResult_counts rs (0%Z, 0%Z) w) as (Hval & Horacle & Hevs).
  cbn zeta in *. cbn [fst snd] in Hval. rewrite !Z.add_0_l in Hval.
  repeat split; try done.
  rewrite Hval. cbn [fst snd]. pose proof (succeeded_failed_length rs). lia.
Qed.

Lemma ParseWorkflowFile_world file w :
  (ParseWorkflowFile file w).2 = mkWorld (oracle w) (history w ++ [EvReadFile file]).
Proof.
  unfold parser.ParseWorkflowFile. rewrite bind_eq.
  by destruct (call (EvReadFile file) o_read_file w).1.
Qed.

Lemma runCommand_unparsed file w err :
  (ParseWorkflowFile file (afterMessage (loadingMessage file) w)).1 = inr err ->
  runCommand file w
  = (cmd.Exited (Some (parseErrorMessage err)) 1,
     mkWorld (oracle w) (history w ++ [EvPrint (loadingMessage file); EvReadFile file])).
Proof.
  intros Hparse. unfold cmd.runCommand. rewrite bind_eq, bind_eq.
  change (fmt_Printf _ w).2 with (afterMessage (loadingMessage file) w).
  rewrite Hparse, ParseWorkflowFile_world. cbn. by rewrite <- app_assoc.
Qed.

(** X19. When the workflow file cannot be read, or its content is not a
    workflow for [ParseWorkflowString], the [run] command exits with
    status 1 and that error on its standard error, having printed its
    first line and read the file once, and nothing else: no engine is
    made and no task is executed. *)
Theorem X19_parse_failure file w err :
  let h := history w ++ [EvPrint (loadingMessage file); EvReadFile file] in
  (o_read_file (oracle w) h = inl err \/
   exists content, o_read_file (oracle w) h = inr content /\
                   parser.ParseWorkflowString yaml_Unmarshal content = inr err) ->
  runCommand file w = (cmd.Exited (Some (parseErrorMessage err)) 1, mkWorld (oracle w) h).
Proof.
  cbn zeta. intros Hfail. apply runCommand_unparsed.
  unfold parser.ParseWorkflowFile. rewrite bind_eq.
  unfold call, afterMessage. cbn [fst snd oracle history]. rewrite <- app_assoc.
  cbn [app]. destruct Hfail as [->|(content & -> & Herr)]; [done | exact Herr].
Qed.

Lemma runCommand_parsed file w wf :
  (ParseWorkflowFile file (afterMessage (loadingMessage file) w)).1 = inl wf ->
  exists w1,
    oracle w1 = oracle w /\
    (let run := (cmd.engine_Run (NewEngine wf) Background w1).1 in
     (runCommand file w).1 =
     match run.2 with
     | Some err => cmd.Exited (Some (runErrorMessage err)) 1
     | None => if (0 <? Z.of_nat (length (failed run.1)))%Z
               then cmd.Exited None 1 else cmd.Returned
     end).
Proof.
  intros Hparse. unfold cmd.runCommand. rewrite bind_eq, bind_eq.
  change (fmt_Printf _ w).2 with (afterMessage (loadingMessage file) w).
  rewrite Hparse, ParseWorkflowFile_world.
  repeat (rewrite bind_eq; cbn beta).
  set (w1 := (cmd.fmt_Println EmptyString _).2).
  exists w1. split.
  { subst w1. cbn. by destruct (String.eqb (Description wf) EmptyString). }
  set (run := (cmd.engine_Run (NewEngine wf) Background w1).1). cbn zeta.
  match goal with
  | |- context [forEach run.1 (cmd.reportResult formatSeconds) ?c ?w0] =>
      destruct (reportResult_counts run.1 c w0) as (Hcounts & _)
  end.
  cbn zeta in Hcounts. rewrite Hcounts. cbn [fst snd]. rewrite Z.add_0_l.
  destruct run.2 as [err|]; [done|].
  destruct (0 <? Z.of_nat (length (failed run.1)))%Z; [done|].
  by rewrite bind_eq.
Qed.

(** X20. How the [run] command ends. It returns only when the file was
    parsed, [Run] gave no error and every result is a success; every task
    of the workflow then has its result. In every other case it exits
    with status 1: with the parser's error; with the error of [Run]; or,
    when [Run] gave no error but some result is a failure, with nothing on
    its standard error. *)
Theorem X20_exit_status file w :
  let parsed := (ParseWorkflowFile file (afterMessage (loadingMessage file) w)).1 in
  match (runCommand file w).1 with
  | cmd.Returned =>
      exists wf rs w1 w2,
        parsed = inl wf /\ oracle w1 = oracle w /\
        Run (NewEngine wf) Background w1 = (Some (rs, None), w2) /\
        Forall (fun r => Success r = true) rs /\
        map TaskName rs ≡ₚ map Name (Tasks wf)
  | cmd.Exited stderr code =>
      code = 1%Z /\
      ((exists err, parsed = inr err /\ stderr = Some (parseErrorMessage err)) \/
       (exists wf rs err w1 w2,
           parsed = inl wf /\ oracle w1 = oracle w /\
           Run (NewEngine wf) Background w1 = (Some (rs, Some err), w2) /\
           stderr = Some (runErrorMessage err)) \/
       (exists wf rs w1 w2,
           parsed = inl wf /\ oracle w1 = oracle w /\
           Run (NewEngine wf) Background w1 = (Some (rs, None), w2) /\
           Exists (fun r => Success r = false) rs /\ stderr = None))
  end.
Proof.
  cbn zeta.
  destruct (ParseWorkflowFile file (afterMessage (loadingMessage file) w)).1
    as [wf|err] eqn:Hparse.
  - destruct (runCommand_parsed file w wf Hparse) as (w1 & Horacle & Hfin).
    cbn zeta in Hfin. rewrite Hfin. clear Hfin. unfold cmd.engine_Run.
    destruct (Run_returns (NewEngine wf) Background w1) as (rs & err & w2 & Hrun).
    rewrite Hrun. cbn [fst snd].
    destruct err as [err|].
    + split; [done|]. right. left. by exists wf, rs, err, w1, w2.
    + destruct (Z.ltb_spec 0 (Z.of_nat (length (failed rs)))) as [Hsome|Hnone].
      * split; [done|]. right. right. exists wf, rs, w1, w2.
        repeat split; try done.
        destruct (failed rs) as [|r rest] eqn:Hfailed; [cbn in Hsome; lia|].
        assert (Hr : In r (failed rs)) by (rewrite Hfailed; by left).
        apply filter_In in Hr as [Hr Hs]. apply negb_true_iff in Hs.
        apply List.Exists_exists. by exists r.
      * exists wf, rs, w1, w2. repeat split; try done.
        -- apply List.Forall_forall. intros r Hr.
           destruct (Success r) eqn:Hs; [done|].
           assert (Hin : In r (failed rs))
             by (apply filter_In; split; [done | by rewrite Hs]).
           destruct (failed rs); [done | cbn in Hnone; lia].
        -- destruct (completed_run _ _ _ _ _ Hrun) as (Huniq & (st & Hgood & ->) & Hall).
           apply NoDup_Permutation; [apply (good_nodup _ st Hgood) | exact Huniq |].
           intros name. rewrite !list_elem_of_In. split; [|apply Hall].
           intros (r & <- & Hr)%in_map_iff. by apply (good_names _ st Hgood).
  - rewrite (runCommand_unparsed file w err Hparse). cbn [fst].
    split; [done|]. left. by exists err.
Qed.

End RunCommandProperties.

Lemma X19_witness :
  cmd.runCommand rejectingYaml wholeSeconds "build.yaml" brokenWorld
  = (cmd.Exited (Some (parseErrorMessage "no such file or directory")) 1,
     mkWorld (oracle brokenWorld)
             (history brokenWorld
              ++ [EvPrint (loadingMessage "build.yaml"); EvReadFile "build.yaml"])).
Proof.
  apply (X19_parse_failure rejectingYaml wholeSeconds "build.yaml" brokenWorld
           "no such file or directory").
  left. reflexivity.
Defined.

(** The command on the pipeline: both tasks run, and the command
    returns. *)
Lemma run_command_on_the_pipeline :
  (cmd.runCommand pipelineYaml wholeSeconds "build.yaml" echoWorld).1 = cmd.Returned /\
  commands (history (cmd.runCommand pipelineYaml wholeSeconds "build.yaml" echoWorld).2)
  = ["echo built"; "echo tested"].
Proof. split; vm_compute; reflexivity. Qed.

(** ** The string functions on examples *)

Example ReplaceAll_ex1 :
  strings.ReplaceAll "echo ${x} and ${x}${y}" "${x}" "5" = "echo 5 and 5${y}".
Proof. reflexivity. Qed.

Example ReplaceAll_ex2 : strings.ReplaceAll "aaaa" "aa" "b" = "bb".
Proof. reflexivity. Qed.

Example ReplaceAll_ex3 : strings.ReplaceAll "aaa" "aa" "b" = "ba".
Proof. reflexivity. Qed.

Example Split_ex1 : strings.Split "a == b" "==" = ["a "; " b"].
Proof. reflexivity. Qed.

Example Split_ex2 : strings.Split "a===b" "==" = ["a"; "=b"].
Proof. reflexivity. Qed.

Example Split_ex3 : strings.Split "x==y==" "==" = ["x"; "y"; EmptyString].
Proof. reflexivity. Qed.


Example TrimSpace_ex1 : strings.TrimSpace "  a b  " = "a b".
Proof. reflexivity. Qed.
